(** * helmfile-next-version: update detection over a helmfile manifest

    A shallow embedding of the two drafts of the program found in the
    repository, [src/main.go] (the file the Makefile builds) and the second
    draft [src/unnamed/part_000].  The two drafts share the data model and
    [GetReleaseComparer]; they differ in what [HasUpdate] does when a
    version does not parse and in what [CheckForUpdates] does when a lookup
    fails.  Shared code is embedded once, the differing functions live in
    the modules [Main] (main.go) and [Part000]. *)

From Stdlib Require Import String Ascii List NArith Lia Bool.
From stdpp Require Import base option list strings.

Set Warnings "-register-all".

Import ListNotations.
Local Open Scope string_scope.
Local Open Scope list_scope.

(** ** Go strings *)

(** strings.HasPrefix(s, prefix) *)
Definition HasPrefix (s prefix : string) : bool := String.prefix prefix s.

(** strings.TrimPrefix(s, prefix): s without the leading prefix, s itself
    when it does not start with it.  At most one occurrence is removed. *)
Definition TrimPrefix (s prefix : string) : string :=
  if HasPrefix s prefix
  then String.substring (String.length prefix)
                        (String.length s - String.length prefix) s
  else s.

Definition newline : string := String (ascii_of_nat 10) "".

(** ** Go errors *)

(** The error values the program builds: plain messages (errors.New,
    fmt.Errorf without a wrapping verb, errors of the libraries), fmt.Errorf
    with one wrapped error, and errors.Join. *)
Inductive error : Type :=
| errorString (msg : string)
| wrapError (msg : string) (err : error)
| joinError (errs : list error).

(** err.Error() *)
Fixpoint Error (e : error) : string :=
  match e with
  | errorString msg => msg
  | wrapError msg _ => msg
  | joinError errs => String.concat newline (map Error errs)
  end.

(** errors.Join(errs...): nil arguments are dropped, nil when none is left. *)
Definition Join (errs : list (option error)) : option error :=
  match omap id errs with
  | [] => None
  | es => Some (joinError es)
  end.

(** A Go pair (value, error). *)
Inductive result (A : Type) : Type :=
| Ok (a : A)
| Err (e : error).
Arguments Ok {A} a.
Arguments Err {A} e.

(** What a panic carries: the argument of panic(...), or the runtime error
    of a nil pointer dereference. *)
Inductive panic_value : Type :=
| PanicError (e : error)
| NilDereference.

(** A Go call that either returns or panics. *)
Inductive outcome (A : Type) : Type :=
| Ret (a : A)
| Panic (p : panic_value).
Arguments Ret {A} a.
Arguments Panic {A} p.

(** ** Data model *)

(** A *bool: the address of a cell of the heap of booleans.  The program
    never writes through such a pointer and never reads one; the heap keeps
    track of the cells that GetReleaseComparer allocates. *)
Definition ptr := nat.

Module HelmChartInfo.
Record t : Type := mk { Name : string; Version : string; Installed : option ptr }.
End HelmChartInfo.

Record Release : Type := mkRelease {
  Name : string;
  Chart : string;
  Version : string;
  Installed : option ptr
}.

Record Helmfile : Type := mkHelmfile { Releases : list Release }.

Record ReleaseComparer : Type := mkReleaseComparer {
  Current : Release;
  Latest : Release
}.

(** A *ReleaseComparer: nil or a comparer (comparers are never written to
    after they are built). *)
Record UpdateManager : Type := mkUpdateManager {
  um_Helmfile : Helmfile;
  Comparisons : list (option ReleaseComparer)
}.

Definition NewUpdateManager (helmfile : Helmfile) : UpdateManager :=
  {| um_Helmfile := helmfile; Comparisons := [] |}.

(** func (rc *ReleaseComparer) Name() string *)
Definition ReleaseComparer_Name (rc : ReleaseComparer) : string := Name (Current rc).

(** ** Semantic versions *)

Module semver.

(** Modelled from the spec: the package github.com/Masterminds/semver/v3
    that [HasUpdate] calls is a dependency that is not part of the
    repository.  The spec describes it as parsing "major.minor.patch with
    optional pre-release/build metadata", ordered by "major, then minor,
    then patch, then pre-release precedence; build metadata is ignored for
    ordering". *)
Record Version : Type := mkVersion {
  major : N;
  minor : N;
  patch : N;
  pre : string;
  metadata : string
}.

Definition is_digit (c : ascii) : bool :=
  (48 <=? nat_of_ascii c)%nat && (nat_of_ascii c <=? 57)%nat.

Definition is_ident_char (c : ascii) : bool :=
  let n := nat_of_ascii c in
  is_digit c || ((65 <=? n)%nat && (n <=? 90)%nat)
  || ((97 <=? n)%nat && (n <=? 122)%nat) || (n =? 45)%nat.

Fixpoint all_chars (p : ascii -> bool) (s : string) : bool :=
  match s with
  | EmptyString => true
  | String c s' => p c && all_chars p s'
  end.

(** A numeric identifier: one digit or more, nothing else. *)
Definition is_numeric (s : string) : bool :=
  negb (s =? "")%string && all_chars is_digit s.

Fixpoint uint_of_digits (acc : N) (s : string) : N :=
  match s with
  | EmptyString => acc
  | String c s' => uint_of_digits (10 * acc + N.of_nat (nat_of_ascii c - 48)) s'
  end.

Definition parse_uint (s : string) : N := uint_of_digits 0 s.

(** strings.Split(s, sep) for a one-character separator. *)
Fixpoint Split (sep : ascii) (s : string) : list string :=
  match s with
  | EmptyString => [EmptyString]
  | String c s' =>
      if Ascii.eqb c sep then EmptyString :: Split sep s'
      else match Split sep s' with
           | [] => [String c EmptyString]
           | w :: ws => String c w :: ws
           end
  end.

(** The text before the first [sep], and the text after it when there is
    one. *)
Fixpoint cut (sep : ascii) (s : string) : string * option string :=
  match s with
  | EmptyString => (EmptyString, None)
  | String c s' =>
      if Ascii.eqb c sep then (EmptyString, Some s')
      else let '(a, b) := cut sep s' in (String c a, b)
  end.

(** Modelled from the spec: the pre-release precedence of the semver
    package, which is not in the repository.  Two identifiers: numeric ones
    by value, a numeric one below an alphanumeric one, alphanumeric ones in
    ASCII order. *)
Definition comparePrePart (s o : string) : comparison :=
  match is_numeric s, is_numeric o with
  | true, true => N.compare (parse_uint s) (parse_uint o)
  | true, false => Lt
  | false, true => Gt
  | false, false => String.compare s o
  end.

(** Modelled from the spec: the pre-release precedence of the semver
    package.  Identifier by identifier from the left; when one list is a
    prefix of the other the longer one is the greater. *)
Fixpoint compareParts (sparts oparts : list string) : comparison :=
  match sparts, oparts with
  | [], [] => Eq
  | [], _ :: _ => Lt
  | _ :: _, [] => Gt
  | s :: sparts', o :: oparts' =>
      match comparePrePart s o with
      | Eq => compareParts sparts' oparts'
      | d => d
      end
  end.

Definition dot : ascii := ascii_of_nat 46.

Definition comparePrerelease (v o : string) : comparison :=
  compareParts (Split dot v) (Split dot o).

(** Modelled from the spec: v.Compare(o) of the semver package.  Major,
    minor and patch in turn; then a version with a pre-release is below the
    same version without one; then the pre-releases.  The build metadata is
    not looked at. *)
Definition Compare (v o : Version) : comparison :=
  match N.compare (major v) (major o) with
  | Eq =>
      match N.compare (minor v) (minor o) with
      | Eq =>
          match N.compare (patch v) (patch o) with
          | Eq =>
              match (pre v =? "")%string, (pre o =? "")%string with
              | true, true => Eq
              | true, false => Gt
              | false, true => Lt
              | false, false => comparePrerelease (pre v) (pre o)
              end
          | d => d
          end
      | d => d
      end
  | d => d
  end.

(** Modelled from the spec: v.LessThan(o) of the semver package. *)
Definition LessThan (v o : Version) : bool :=
  match Compare v o with Lt => true | _ => false end.

Definition ErrInvalidSemVer : error := errorString "Invalid Semantic Version".

(** Dot-separated non-empty identifiers over [0-9A-Za-z-]. *)
Definition valid_idents (s : string) : bool :=
  forallb (fun w => negb (w =? "")%string && all_chars is_ident_char w) (Split dot s).

(** Modelled from the spec: semver.NewVersion of the semver package, for
    the shape the spec names: three numeric fields, then an optional "-"
    pre-release and an optional "+" build metadata.  [HasUpdate] takes its
    parser as a parameter, so that no theorem about it rests on which other
    spellings the package accepts; this parser runs the examples. *)
Definition NewVersion (v : string) : result Version :=
  let '(front, meta) := cut (ascii_of_nat 43) v in
  let '(core, prerelease) := cut (ascii_of_nat 45) front in
  match Split dot core with
  | [ma; mi; pa] =>
      if is_numeric ma && is_numeric mi && is_numeric pa
         && from_option valid_idents true prerelease
         && from_option valid_idents true meta
      then Ok {| major := parse_uint ma; minor := parse_uint mi;
                 patch := parse_uint pa;
                 pre := default "" prerelease; metadata := default "" meta |}
      else Err ErrInvalidSemVer
  | _ => Err ErrInvalidSemVer
  end.

End semver.

(** ** The lookup shared by the two drafts *)

(** What a lookup can touch outside its arguments: the heap of bool cells
    (every call declares [installed := true] and may take its address) and
    the helm searches run so far, oldest first. *)
Record world : Type := mkWorld {
  heap : list bool;
  searches : list string
}.

(** A fresh bool variable holding [b]; its address. *)
Definition new_bool (b : bool) (w : world) : ptr * world :=
  (length (heap w), {| heap := (heap w ++ [b])%list; searches := searches w |}).

Definition is_local_chart (chart : string) : bool :=
  HasPrefix chart "/" || HasPrefix chart "./" || HasPrefix chart "../".

Section Lookup.

(** exec.Command("helm", "search", "repo", chart, "--output", "yaml").Output():
    the standard output, or the error of the process. *)
Variable helm_search_repo : string -> result string.

(** yaml.Unmarshal(output, &chart) into a []HelmChartInfo. *)
Variable yaml_Unmarshal : string -> result (list HelmChartInfo.t).

(** cmd.Output() of the search, recorded in the world. *)
Definition run_search (chart : string) (w : world) : result string * world :=
  (helm_search_repo chart,
   {| heap := heap w; searches := (searches w ++ [chart])%list |}).

(** func (um *UpdateManager) GetReleaseComparer(release Release).
    [release] is the callee's own copy of the struct. *)
Definition GetReleaseComparer (release : Release) (w : world)
  : result ReleaseComparer * world :=
  let '(installed, w) := new_bool true w in
  let release :=
    match Installed release with
    | None => {| Name := Name release; Chart := Chart release;
                 Version := Version release; Installed := Some installed |}
    | Some _ => release
    end in
  if is_local_chart (Chart release)
  then (Ok {| Current := release; Latest := release |}, w)
  else
    let '(output, w) := run_search (Chart release) w in
    match output with
    | Err err =>
        (Err (wrapError ("failed to search for chart " +:+ Chart release
                         +:+ ": " +:+ Error err) err), w)
    | Ok output =>
        match yaml_Unmarshal output with
        | Err err =>
            (Err (wrapError ("failed to unmarshal YAML data: " +:+ Error err) err), w)
        | Ok [] =>
            (Err (errorString ("chart " +:+ Chart release +:+ " not found")), w)
        | Ok (chart0 :: _) =>
            (Ok {| Current := release;
                   Latest := {| Name := Name release;
                                Chart := HelmChartInfo.Name chart0;
                                Version := HelmChartInfo.Version chart0;
                                Installed := HelmChartInfo.Installed chart0 |} |}, w)
        end
    end.

End Lookup.

(** The *ReleaseComparer of a pair (comparer, err): nil beside an error. *)
Definition comparer_of (r : result ReleaseComparer) : option ReleaseComparer :=
  match r with Ok rc => Some rc | Err _ => None end.

(** The error of a pair (value, err): nil beside a value. *)
Definition error_of {A} (r : result A) : option error :=
  match r with Ok _ => None | Err e => Some e end.

(** ** src/unnamed/part_000 *)

Module Part000.

Section Comparator.

(** semver.NewVersion; the theorems hold for every parser. *)
Variable NewVersion : string -> result semver.Version.

(** func (rc *ReleaseComparer) HasUpdate() bool, with the lines it
    hands to log.Printf. *)
Definition HasUpdate (rc : ReleaseComparer) : bool * list string :=
  let currentVersion := TrimPrefix (Version (Current rc)) "v" in
  let latestVersion := TrimPrefix (Version (Latest rc)) "v" in
  if (currentVersion =? latestVersion)%string then (false, [])
  else
    match NewVersion currentVersion with
    | Err err =>
        (false, ["Failed to parse current version " +:+ Name (Current rc) +:+ " "
                 +:+ currentVersion +:+ ": " +:+ Error err +:+ newline])
    | Ok currentSemver =>
        match NewVersion latestVersion with
        | Err err =>
            (false, ["Failed to parse latest version " +:+ Name (Current rc) +:+ " "
                     +:+ latestVersion +:+ ": " +:+ Error err +:+ newline])
        | Ok latestSemver => (semver.LessThan currentSemver latestSemver, [])
        end
    end.

(** func (um *UpdateManager) HasUpdates() bool over um.Comparisons.
    Calling HasUpdate on a nil comparer reads rc.Current through the nil
    pointer. *)
Fixpoint HasUpdates (comparisons : list (option ReleaseComparer))
  : outcome bool * list string :=
  match comparisons with
  | [] => (Ret false, [])
  | None :: _ => (Panic NilDereference, [])
  | Some comparer :: rest =>
      let '(b, out) := HasUpdate comparer in
      if b then (Ret true, out)
      else let '(r, out') := HasUpdates rest in (r, (out ++ out')%list)
  end.

End Comparator.

(** The statements a goroutine of CheckForUpdates has still to run. *)
Inductive pc : Type :=
| AtLookup
| AtCheck (comparer : option ReleaseComparer)
| AtStore (comparer : option ReleaseComparer)
| Finished.

(** A goroutine, with its own copy of the release it was started with. *)
Record task : Type := mkTask { t_release : Release; t_pc : pc }.

Definition is_Finished (t : task) : bool :=
  match t_pc t with Finished => true | _ => false end.

Section Engine.

Variable helm_search_repo : string -> result string.
Variable yaml_Unmarshal : string -> result (list HelmChartInfo.t).

(** The variables the goroutines of CheckForUpdates share: [err],
    [comparisons], and the world. *)
Record state : Type := mkState {
  st_world : world;
  st_err : option error;
  st_comparisons : list (option ReleaseComparer);
  st_tasks : list task
}.

Definition set_task (i : nat) (t : task) (p : pc) (st : state) : list task :=
  <[i := {| t_release := t_release t; t_pc := p |}]> (st_tasks st).

(** Goroutine [i] runs its next statement.  The goroutines are interleaved
    statement by statement, each statement reading and writing the shared
    variables in one go; the program takes no lock on [err]. *)
Definition step (st : state) (i : nat) : state :=
  match st_tasks st !! i with
  | None => st
  | Some t =>
      match t_pc t with
      | AtLookup =>
          (* comparer, err = um.GetReleaseComparer(release) *)
          let '(r, w) := GetReleaseComparer helm_search_repo yaml_Unmarshal
                           (t_release t) (st_world st) in
          {| st_world := w; st_err := error_of r;
             st_comparisons := st_comparisons st;
             st_tasks := set_task i t (AtCheck (comparer_of r)) st |}
      | AtCheck comparer =>
          (* if err != nil { err = errors.Join(err, fmt.Errorf(...)) } *)
          let err :=
            match st_err st with
            | None => None
            | Some err =>
                Join [Some err;
                      Some (errorString
                              ("failed to get release comparer for release "
                               +:+ Name (t_release t) +:+ ": " +:+ Error err))]
            end in
          {| st_world := st_world st; st_err := err;
             st_comparisons := st_comparisons st;
             st_tasks := set_task i t (AtStore comparer) st |}
      | AtStore comparer =>
          (* comparisons[i] = comparer; then the deferred wg.Done() *)
          {| st_world := st_world st; st_err := st_err st;
             st_comparisons := <[i := comparer]> (st_comparisons st);
             st_tasks := set_task i t Finished st |}
      | Finished => st
      end
  end.

(** The state when the last goroutine has been started: var err error,
    make([]*ReleaseComparer, len(releases)), one goroutine a release. *)
Definition start (um : UpdateManager) (w : world) : state :=
  let releases := Releases (um_Helmfile um) in
  {| st_world := w; st_err := None;
     st_comparisons := replicate (length releases) None;
     st_tasks := map (fun release => {| t_release := release; t_pc := AtLookup |})
                     releases |}.

Definition run (sched : list nat) (st : state) : state := foldl step st sched.

(** func (um *UpdateManager) CheckForUpdates() error, under the
    interleaving [sched] of the goroutines' statements.  wg.Wait()
    returns once every goroutine is done; [None] when [sched] ends
    before that. *)
Definition CheckForUpdates (sched : list nat) (um : UpdateManager) (w : world)
  : option (UpdateManager * option error * world) :=
  let st := run sched (start um w) in
  if forallb is_Finished (st_tasks st)
  then Some ({| um_Helmfile := um_Helmfile um; Comparisons := st_comparisons st |},
             st_err st, st_world st)
  else None.

End Engine.

End Part000.

(** ** src/main.go *)

Module Main.

Section Comparator.

Variable NewVersion : string -> result semver.Version.

(** func (rc *ReleaseComparer) HasUpdate() bool *)
Definition HasUpdate (rc : ReleaseComparer) : outcome bool :=
  let currentVersion := TrimPrefix (Version (Current rc)) "v" in
  let latestVersion := TrimPrefix (Version (Latest rc)) "v" in
  if (currentVersion =? latestVersion)%string then Ret false
  else
    match NewVersion currentVersion with
    | Err err =>
        Panic (PanicError
                 (wrapError ("failed to parse current version " +:+ Name (Current rc)
                             +:+ " " +:+ currentVersion +:+ ": " +:+ Error err) err))
    | Ok currentSemver =>
        match NewVersion latestVersion with
        | Err err =>
            Panic (PanicError
                     (wrapError ("failed to parse latest version " +:+ Name (Current rc)
                                 +:+ " " +:+ latestVersion +:+ ": " +:+ Error err) err))
        | Ok latestSemver => Ret (semver.LessThan currentSemver latestSemver)
        end
    end.

(** func (um *UpdateManager) HasUpdates() bool over um.Comparisons *)
Fixpoint HasUpdates (comparisons : list (option ReleaseComparer)) : outcome bool :=
  match comparisons with
  | [] => Ret false
  | None :: _ => Panic NilDereference
  | Some comparer :: rest =>
      match HasUpdate comparer with
      | Ret true => Ret true
      | Ret false => HasUpdates rest
      | Panic p => Panic p
      end
  end.

End Comparator.

(** The statements a goroutine of CheckForUpdates has still to run;
    [comparer] and [err] are its own variables here. *)
Inductive pc : Type :=
| AtLookup
| AtStore (comparer : option ReleaseComparer)
| Finished.

Record task : Type := mkTask { t_release : Release; t_pc : pc }.

Definition is_Finished (t : task) : bool :=
  match t_pc t with Finished => true | _ => false end.

Section Engine.

Variable helm_search_repo : string -> result string.
Variable yaml_Unmarshal : string -> result (list HelmChartInfo.t).

(** [st_panic] is set once a goroutine has panicked: the process is
    gone and nothing runs after that. *)
Record state : Type := mkState {
  st_world : world;
  st_panic : option panic_value;
  st_comparisons : list (option ReleaseComparer);
  st_tasks : list task
}.

Definition set_task (i : nat) (t : task) (p : pc) (st : state) : list task :=
  <[i := {| t_release := t_release t; t_pc := p |}]> (st_tasks st).

Definition step (st : state) (i : nat) : state :=
  match st_panic st, st_tasks st !! i with
  | Some _, _ | _, None => st
  | None, Some t =>
      match t_pc t with
      | AtLookup =>
          (* comparer, err := um.GetReleaseComparer(release)
             if err != nil { panic(err) } *)
          let '(r, w) := GetReleaseComparer helm_search_repo yaml_Unmarshal
                           (t_release t) (st_world st) in
          {| st_world := w;
             st_panic := PanicError <$> error_of r;
             st_comparisons := st_comparisons st;
             st_tasks := set_task i t (AtStore (comparer_of r)) st |}
      | AtStore comparer =>
          (* comparisons[i] = comparer; then the deferred wg.Done() *)
          {| st_world := st_world st; st_panic := None;
             st_comparisons := <[i := comparer]> (st_comparisons st);
             st_tasks := set_task i t Finished st |}
      | Finished => st
      end
  end.

Definition start (um : UpdateManager) (w : world) : state :=
  let releases := Releases (um_Helmfile um) in
  {| st_world := w; st_panic := None;
     st_comparisons := replicate (length releases) None;
     st_tasks := map (fun release => {| t_release := release; t_pc := AtLookup |})
                     releases |}.

Definition run (sched : list nat) (st : state) : state := foldl step st sched.

(** func (um *UpdateManager) CheckForUpdates() error under the
    interleaving [sched]: the panic of a goroutine, or after wg.Wait()
    the manager with a copy of [comparisons] and the nil error; [None]
    when [sched] ends before either. *)
Definition CheckForUpdates (sched : list nat) (um : UpdateManager) (w : world)
  : option (outcome (UpdateManager * option error) * world) :=
  let st := run sched (start um w) in
  match st_panic st with
  | Some p => Some (Panic p, st_world st)
  | None =>
      if forallb is_Finished (st_tasks st)
      then Some (Ret ({| um_Helmfile := um_Helmfile um;
                         Comparisons := [] ++ st_comparisons st |}, None),
                 st_world st)
      else None
  end.

End Engine.

End Main.

(** The goroutines one after the other, each running its (at most three)
    statements. *)
Definition in_order (n : nat) : list nat :=
  flat_map (fun i => [i; i; i]) (seq 0 n).


(** ** Notions the statements use *)

(** "Strips one leading v marker": the string without its first character
    when that is a v, the string itself otherwise. *)
Definition strip_v (s : string) : string :=
  match s with
  | String "v" s' => s'
  | _ => s
  end.

(** The boolean a call returned, if it returned. *)
Definition returned {A} (o : outcome A) : option A :=
  match o with Ret a => Some a | Panic _ => None end.

Definition is_Err {A} (r : result A) : Prop := exists e, r = Err e.

(** A release as the loader leaves it: the installed flag unset. *)
Definition declared (name chart version : string) : Release :=
  {| Name := name; Chart := chart; Version := version; Installed := None |}.

(** A comparer between two version strings of one release. *)
Definition versions (name current latest : string) : ReleaseComparer :=
  {| Current := declared name name current; Latest := declared name name latest |}.

(** The callee's copy of [release] once GetReleaseComparer has defaulted
    its installed flag to the address [installed]. *)
Definition defaulted (release : Release) (installed : ptr) : Release :=
  match Installed release with
  | None => {| Name := Name release; Chart := Chart release;
               Version := Version release; Installed := Some installed |}
  | Some _ => release
  end.

(** *** The goroutines of part_000's CheckForUpdates *)

(** How many statements a goroutine has run. *)
Definition rank (p : Part000.pc) : nat :=
  match p with
  | Part000.AtLookup => 0
  | Part000.AtCheck _ => 1
  | Part000.AtStore _ => 2
  | Part000.Finished => 3
  end.

Definition progress (st : Part000.state) (i : nat) : nat :=
  match Part000.st_tasks st !! i with
  | Some t => rank (Part000.t_pc t)
  | None => 3
  end.

(** The comparer goroutine [i] got from its lookup, once it has one: in its
    own variable until it is stored, in slot [i] from then on. *)
Definition held (st : Part000.state) (i : nat) : option (option ReleaseComparer) :=
  match Part000.st_tasks st !! i with
  | Some t =>
      match Part000.t_pc t with
      | Part000.AtLookup => None
      | Part000.AtCheck c | Part000.AtStore c => Some c
      | Part000.Finished => Part000.st_comparisons st !! i
      end
  | None => None
  end.

Section EngineInvariant.

Variable helm_search_repo : string -> result string.
Variable yaml_Unmarshal : string -> result (list HelmChartInfo.t).
Variable um : UpdateManager.
Variable w0 : world.

(** [c] is what a lookup of [release] returned, run in a world whose heap
    had between [lo] and [hi] cells (hi excluded). *)
Definition looked_up (release : Release) (lo hi : nat) (c : option ReleaseComparer) : Prop :=
  exists wi, lo <= length (heap wi) < hi
             /\ c = comparer_of (GetReleaseComparer helm_search_repo yaml_Unmarshal
                                                   release wi).1.

(** What every interleaving keeps true of the shared variables. *)
Record Inv (st : Part000.state) : Prop := mkInv {
  inv_slots : length (Part000.st_comparisons st) = length (Releases (um_Helmfile um));
  inv_tasks : forall i, Part000.t_release <$> Part000.st_tasks st !! i
                        = Releases (um_Helmfile um) !! i;
  inv_heap : exists k, heap (Part000.st_world st) = heap w0 ++ replicate k true;
  inv_held : forall i release c,
      Releases (um_Helmfile um) !! i = Some release -> held st i = Some c ->
      looked_up release (length (heap w0)) (length (heap (Part000.st_world st))) c;
  inv_own : forall i j release release' rc rc',
      i <> j ->
      Releases (um_Helmfile um) !! i = Some release -> Installed release = None ->
      Releases (um_Helmfile um) !! j = Some release' -> Installed release' = None ->
      held st i = Some (Some rc) -> held st j = Some (Some rc') ->
      Installed (Current rc) <> Installed (Current rc')
}.

End EngineInvariant.

(** *** The goroutines of main.go's CheckForUpdates *)

Definition Main_rank (p : Main.pc) : nat :=
  match p with
  | Main.AtLookup => 0
  | Main.AtStore _ => 1
  | Main.Finished => 2
  end.

Definition Main_progress (st : Main.state) (i : nat) : nat :=
  match Main.st_tasks st !! i with
  | Some t => Main_rank (Main.t_pc t)
  | None => 2
  end.

Definition Main_held (st : Main.state) (i : nat) : option (option ReleaseComparer) :=
  match Main.st_tasks st !! i with
  | Some t =>
      match Main.t_pc t with
      | Main.AtLookup => None
      | Main.AtStore c => Some c
      | Main.Finished => Main.st_comparisons st !! i
      end
  | None => None
  end.

Section MainEngineInvariant.

Variable helm_search_repo : string -> result string.
Variable yaml_Unmarshal : string -> result (list HelmChartInfo.t).
Variable um : UpdateManager.

Record Main_Inv (st : Main.state) : Prop := mkMainInv {
  main_inv_slots : length (Main.st_comparisons st) = length (Releases (um_Helmfile um));
  main_inv_tasks : forall i, Main.t_release <$> Main.st_tasks st !! i
                             = Releases (um_Helmfile um) !! i;
  main_inv_held : forall i release c,
      Releases (um_Helmfile um) !! i = Some release -> Main_held st i = Some c ->
      exists wi, c = comparer_of (GetReleaseComparer helm_search_repo yaml_Unmarshal
                                                     release wi).1
}.

End MainEngineInvariant.

(** *** A manifest and a registry to run the engine on *)

(** helm search repo: the chart repoA/a is known, any other chart makes the
    process fail. *)
Definition example_search (chart : string) : result string :=
  if (chart =? "repoA/a")%string
  then Ok "- name: repoA/a"
  else Err (errorString "exit status 1").

Definition example_yaml (output : string) : result (list HelmChartInfo.t) :=
  Ok [{| HelmChartInfo.Name := "repoA/a"; HelmChartInfo.Version := "1.1.0";
         HelmChartInfo.Installed := None |}].

Definition empty_world : world := {| heap := []; searches := [] |}.

(** releases: a from the registry, b from a local path. *)
Definition example_manager : UpdateManager :=
  NewUpdateManager
    {| Releases := [declared "a" "repoA/a" "1.0.0"; declared "b" "./local/b" "2.0.0"] |}.

(** releases: c, unknown to the registry, then b from a local path. *)
Definition failing_manager : UpdateManager :=
  NewUpdateManager
    {| Releases := [declared "c" "repoC/c" "1.0.0"; declared "b" "./local/b" "2.0.0"] |}.

(** *** Semver precedence, the way the standard words it

    The comparison of [semver.Compare] is stated against these relations:
    precedence is decided by the first difference when major, minor, patch
    and pre-release are compared in that order; a version with a pre-release
    precedes the same version without one; pre-release identifiers are
    compared from left to right, numeric ones numerically, alphanumeric ones
    in ASCII order, a numeric one below an alphanumeric one, and a longer list
    of identifiers above its prefix.  Build metadata does not appear. *)

(** ASCII order of strings. *)
Inductive string_lt : string -> string -> Prop :=
| string_lt_empty c s : string_lt EmptyString (String c s)
| string_lt_head c d s t :
    (N_of_ascii c < N_of_ascii d)%N -> string_lt (String c s) (String d t)
| string_lt_tail c s t : string_lt s t -> string_lt (String c s) (String c t).

Inductive ident_lt : string -> string -> Prop :=
| ident_lt_numeric s o :
    semver.is_numeric s = true -> semver.is_numeric o = true ->
    (semver.parse_uint s < semver.parse_uint o)%N -> ident_lt s o
| ident_lt_mixed s o :
    semver.is_numeric s = true -> semver.is_numeric o = false -> ident_lt s o
| ident_lt_alpha s o :
    semver.is_numeric s = false -> semver.is_numeric o = false ->
    string_lt s o -> ident_lt s o.

(** Two identifiers of the same precedence. *)
Inductive ident_eq : string -> string -> Prop :=
| ident_eq_numeric s o :
    semver.is_numeric s = true -> semver.is_numeric o = true ->
    semver.parse_uint s = semver.parse_uint o -> ident_eq s o
| ident_eq_alpha s :
    semver.is_numeric s = false -> ident_eq s s.

Inductive parts_lt : list string -> list string -> Prop :=
| parts_lt_prefix o os : parts_lt [] (o :: os)
| parts_lt_head s o ss os : ident_lt s o -> parts_lt (s :: ss) (o :: os)
| parts_lt_tail s o ss os :
    ident_eq s o -> parts_lt ss os -> parts_lt (s :: ss) (o :: os).

Definition pre_precedes (p q : string) : Prop :=
  p <> "" /\ (q = "" \/ parts_lt (semver.Split semver.dot p) (semver.Split semver.dot q)).

Definition precedes (v o : semver.Version) : Prop :=
  (semver.major v < semver.major o)%N
  \/ semver.major v = semver.major o
     /\ ((semver.minor v < semver.minor o)%N
         \/ semver.minor v = semver.minor o
            /\ ((semver.patch v < semver.patch o)%N
                \/ semver.patch v = semver.patch o
                   /\ pre_precedes (semver.pre v) (semver.pre o))).

(** *** Three-way comparisons that order their arguments *)

(** A comparison function of a strict order that is total up to its [Eq]. *)
Record order_like {A : Type} (cmp : A -> A -> comparison) : Prop := mkOrderLike {
  cmp_antisym : forall a b, cmp a b = CompOpp (cmp b a);
  cmp_eq_compat : forall a b c, cmp a b = Eq -> cmp a c = cmp b c;
  cmp_trans : forall a b c, cmp a b = Lt -> cmp b c = Lt -> cmp a c = Lt
}.

(** First [cmp1] on the first components, then [cmp2] on the second. *)
Definition lex2 {A B : Type} (cmp1 : A -> A -> comparison) (cmp2 : B -> B -> comparison)
           (x y : A * B) : comparison :=
  match cmp1 x.1 y.1 with
  | Eq => cmp2 x.2 y.2
  | d => d
  end.

(** The last step of [semver.Compare]: no pre-release above any. *)
Definition compare_pre (p q : string) : comparison :=
  match (p =? "")%string, (q =? "")%string with
  | true, true => Eq
  | true, false => Gt
  | false, true => Lt
  | false, false => semver.comparePrerelease p q
  end.

(** What [semver.Compare] looks at. *)
Definition precedence_key (v : semver.Version) : N * (N * (N * string)) :=
  (semver.major v, (semver.minor v, (semver.patch v, semver.pre v))).

(** ** The report and the program around the engine *)

(** What the program writes: a line on the standard output (fmt.Println,
    fmt.Printf), or a message handed to the logger, which writes it to the
    standard error after its time stamp. *)
Inductive event : Type :=
| Stdout (line : string)
| Stderr (line : string).

(** How a run of main ends: it returns, log.Fatalf exits with status 1, or
    a panic kills the process. *)
Inductive exit : Type :=
| Returned
| Fatal
| Crashed (p : panic_value).

(** The logger ends the message with a newline unless it has one. *)
Fixpoint ends_with_newline (s : string) : bool :=
  match s with
  | EmptyString => false
  | String c EmptyString => Ascii.eqb c (ascii_of_nat 10)
  | String _ s' => ends_with_newline s'
  end.

Definition log_line (s : string) : string :=
  if ends_with_newline s then s else s +:+ newline.

(** func getColumnPaddings(comparisons []*ReleaseComparer) (int, int) of
    part_000; main.go has the same loop inside main.  release.Name() on a
    nil comparer reads rc.Current through the nil pointer. *)
Fixpoint paddings_loop (comparisons : list (option ReleaseComparer))
         (namePadding versionPadding : nat) : outcome (nat * nat) :=
  match comparisons with
  | [] => Ret (namePadding, versionPadding)
  | None :: _ => Panic NilDereference
  | Some release :: rest =>
      let namePadding :=
        if (namePadding <? String.length (ReleaseComparer_Name release))%nat
        then String.length (ReleaseComparer_Name release) else namePadding in
      let versionPadding :=
        if (versionPadding <? String.length (Version (Current release)))%nat
        then String.length (Version (Current release)) else versionPadding in
      paddings_loop rest namePadding versionPadding
  end.

Definition getColumnPaddings (comparisons : list (option ReleaseComparer))
  : outcome (nat * nat) :=
  match paddings_loop comparisons 0 0 with
  | Ret (namePadding, versionPadding) => Ret (namePadding + 1, versionPadding + 1)
  | Panic p => Panic p
  end.

Fixpoint spaces (n : nat) : string :=
  match n with
  | 0 => EmptyString
  | S n' => String " " (spaces n')
  end.

Section Fmt.

(** utf8.RuneCountInString, in which fmt measures a string against a
    width. *)
Variable RuneCountInString : string -> nat.

(** The verb %-*s of fmt: the string, then spaces up to the width. *)
Definition left_justified (width : nat) (s : string) : string :=
  s +:+ spaces (width - RuneCountInString s).

(** The verb %*s of fmt: spaces up to the width, then the string. *)
Definition right_justified (width : nat) (s : string) : string :=
  spaces (width - RuneCountInString s) +:+ s.

(** fmt.Sprintf("%-[1]*[2]s %-[3]*[4]s  %[3]*[5]s %[3]*[6]s", namePadding,
    "Chart", versionPadding, "Current", "Latest", "Status") *)
Definition header_text (namePadding versionPadding : nat) : string :=
  left_justified namePadding "Chart" +:+ " "
  +:+ left_justified versionPadding "Current" +:+ "  "
  +:+ right_justified versionPadding "Latest" +:+ " "
  +:+ right_justified versionPadding "Status".

(** fmt.Sprintf("%-[1]*[2]s %-[3]*[4]s  %[3]*[5]s     %[6]s", namePadding,
    release.Name(), versionPadding, release.Current.Version,
    release.Latest.Version, status) *)
Definition row_text (namePadding versionPadding : nat) (release : ReleaseComparer)
           (status : string) : string :=
  left_justified namePadding (ReleaseComparer_Name release) +:+ " "
  +:+ left_justified versionPadding (Version (Current release)) +:+ "  "
  +:+ right_justified versionPadding (Version (Latest release)) +:+ "     "
  +:+ status.

End Fmt.

(** The process "helm repo update" as UpdateRepositories meets it: the
    errors of cmd.StdoutPipe, cmd.Start and cmd.Wait (nil when none) and the
    lines the scanner reads from its standard output. *)
Record repo_update : Type := mkRepoUpdate {
  StdoutPipe_err : option error;
  Start_err : option error;
  scanned : list string;
  Wait_err : option error
}.

(** func (um *UpdateManager) UpdateRepositories() error, the same in both
    drafts, with the lines it prints. *)
Definition UpdateRepositories (cmd : repo_update) : list event * option error :=
  match StdoutPipe_err cmd with
  | Some err => ([], Some (wrapError ("failed to get stdout pipe: " +:+ Error err) err))
  | None =>
      match Start_err cmd with
      | Some err => ([], Some (wrapError ("failed to start command: " +:+ Error err) err))
      | None =>
          match Wait_err cmd with
          | Some err =>
              (map Stdout (scanned cmd),
               Some (wrapError ("failed to wait for command: " +:+ Error err) err))
          | None => (map Stdout (scanned cmd), None)
          end
      end
  end.

(** *** main of src/unnamed/part_000 *)

Module Part000Program.

Definition up_to_date : string := "Charts are up-to-date üéâ".
Definition status_latest : string := "‚úÖ".
Definition status_outdated : string := "‚¨ÜÔ∏è".

Section Report.

Variable NewVersion : string -> result semver.Version.
Variable RuneCountInString : string -> nat.

(** The loop of main over updateManager.Comparisons that prints the rows. *)
Fixpoint rows (flagStatus : string) (namePadding versionPadding : nat)
         (comparisons : list (option ReleaseComparer)) : list event * exit :=
  match comparisons with
  | [] => ([], Returned)
  | None :: _ => ([], Crashed NilDereference)
  | Some release :: rest =>
      let '(b, logged) := Part000.HasUpdate NewVersion release in
      let status := if b then status_outdated else status_latest in
      let text := row_text RuneCountInString namePadding versionPadding release status in
      let printed :=
        if (flagStatus =? "all")%string then [Stdout text]
        else if (flagStatus =? "outdated")%string then
          let '(b', logged') := Part000.HasUpdate NewVersion release in
          map Stderr logged' ++ (if b' then [Stdout text] else [])
        else if (flagStatus =? "latest")%string then
          let '(b', logged') := Part000.HasUpdate NewVersion release in
          map Stderr logged' ++ (if negb b' then [Stdout text] else [])
        else [] in
      let '(out, ex) := rows flagStatus namePadding versionPadding rest in
      (map Stderr logged ++ printed ++ out, ex)
  end.

(** main from the call of HasUpdates to its end. *)
Definition report (flagStatus : string) (comparisons : list (option ReleaseComparer))
  : list event * exit :=
  let '(r, logged) := Part000.HasUpdates NewVersion comparisons in
  match r with
  | Panic p => (map Stderr logged, Crashed p)
  | Ret false => (map Stderr logged ++ [Stdout up_to_date], Returned)
  | Ret true =>
      match getColumnPaddings comparisons with
      | Panic p => (map Stderr logged, Crashed p)
      | Ret (namePadding, versionPadding) =>
          let '(out, ex) := rows flagStatus namePadding versionPadding comparisons in
          (map Stderr logged
           ++ [Stdout ""; Stdout (header_text RuneCountInString namePadding versionPadding)]
           ++ out, ex)
      end
  end.

End Report.

Section Program.

Variable NewVersion : string -> result semver.Version.
Variable RuneCountInString : string -> nat.
Variable helm_search_repo : string -> result string.
Variable yaml_Unmarshal : string -> result (list HelmChartInfo.t).

(** os.IsNotExist of the error of os.Stat(path). *)
Variable Stat_IsNotExist : string -> bool.
(** os.ReadFile(path) *)
Variable ReadFile : string -> result string.
(** yaml.Unmarshal(content, &h) into a Helmfile. *)
Variable yaml_Unmarshal_Helmfile : string -> result Helmfile.
Variable helm_repo_update : repo_update.

(** func NewHelmfile(path string), which returns a Helmfile and an error. *)
Definition NewHelmfile (path : string) : result Helmfile :=
  if Stat_IsNotExist path
  then Err (errorString ("file " +:+ path +:+ " does not exist"))
  else
    match ReadFile path with
    | Err err => Err (wrapError ("failed to read file " +:+ path +:+ ": " +:+ Error err) err)
    | Ok content =>
        match yaml_Unmarshal_Helmfile content with
        | Err err => Err (wrapError ("failed to unmarshal YAML data: " +:+ Error err) err)
        | Ok h => Ok h
        end
    end.

(** func main(), the flags parsed, under the interleaving [sched] of the
    goroutines of CheckForUpdates; [None] when [sched] ends before wg.Wait()
    returns. *)
Definition main (flagPath flagStatus : string) (flagUpdateRepos : bool)
           (sched : list nat) (w : world) : option (list event * exit * world) :=
  match NewHelmfile flagPath with
  | Err err =>
      Some ([Stderr (log_line ("Failed to load helmfile: " +:+ Error err))], Fatal, w)
  | Ok helmfile =>
      let updateManager := NewUpdateManager helmfile in
      let '(out1, err) :=
        if flagUpdateRepos then UpdateRepositories helm_repo_update else ([], None) in
      match err with
      | Some err =>
          Some (out1 ++ [Stderr (log_line ("Failed to update repositories: " +:+ Error err))],
                Fatal, w)
      | None =>
          let out2 := out1 ++ (if flagUpdateRepos then [Stdout ""] else [])
                      ++ [Stdout "Comparing release versions..."] in
          match Part000.CheckForUpdates helm_search_repo yaml_Unmarshal sched
                                        updateManager w with
          | None => None
          | Some (_, Some err, w') =>
              Some (out2 ++ [Stderr (log_line ("Failed to check for updates: "
                                               +:+ Error err))], Fatal, w')
          | Some (updateManager, None, w') =>
              let '(out3, ex) := report NewVersion RuneCountInString flagStatus
                                        (Comparisons updateManager) in
              Some (out2 ++ out3, ex, w')
          end
      end
  end.

End Program.

End Part000Program.

(** *** main of src/main.go *)

Module MainProgram.

Definition up_to_date : string := "Charts are up-to-date 🎉".
Definition status_latest : string := "✅".
Definition status_outdated : string := "⬆️".

Section Report.

Variable NewVersion : string -> result semver.Version.
Variable RuneCountInString : string -> nat.

(** The loop of main over updateManager.Comparisons that prints the rows. *)
Fixpoint rows (flagStatus : string) (namePadding versionPadding : nat)
         (comparisons : list (option ReleaseComparer)) : list event * exit :=
  match comparisons with
  | [] => ([], Returned)
  | None :: _ => ([], Crashed NilDereference)
  | Some release :: rest =>
      match Main.HasUpdate NewVersion release with
      | Panic p => ([], Crashed p)
      | Ret b =>
          let status := if b then status_outdated else status_latest in
          let text := row_text RuneCountInString namePadding versionPadding release status in
          let printed :=
            if (flagStatus =? "all")%string then Ret [Stdout text]
            else if (flagStatus =? "outdated")%string then
              match Main.HasUpdate NewVersion release with
              | Ret b' => Ret (if b' then [Stdout text] else [])
              | Panic p => Panic p
              end
            else if (flagStatus =? "latest")%string then
              match Main.HasUpdate NewVersion release with
              | Ret b' => Ret (if negb b' then [Stdout text] else [])
              | Panic p => Panic p
              end
            else Ret [] in
          match printed with
          | Panic p => ([], Crashed p)
          | Ret printed =>
              let '(out, ex) := rows flagStatus namePadding versionPadding rest in
              (printed ++ out, ex)
          end
      end
  end.

(** main from the call of HasUpdates to its end. *)
Definition report (flagStatus : string) (comparisons : list (option ReleaseComparer))
  : list event * exit :=
  match Main.HasUpdates NewVersion comparisons with
  | Panic p => ([], Crashed p)
  | Ret false => ([Stdout up_to_date], Returned)
  | Ret true =>
      match getColumnPaddings comparisons with
      | Panic p => ([], Crashed p)
      | Ret (namePadding, versionPadding) =>
          let '(out, ex) := rows flagStatus namePadding versionPadding comparisons in
          ([Stdout ""; Stdout (header_text RuneCountInString namePadding versionPadding)]
           ++ out, ex)
      end
  end.

End Report.

Section Program.

Variable NewVersion : string -> result semver.Version.
Variable RuneCountInString : string -> nat.
Variable helm_search_repo : string -> result string.
Variable yaml_Unmarshal : string -> result (list HelmChartInfo.t).

(** filepath.Join *)
Variable filepath_Join : string -> string -> string.
(** os.ReadFile(path) *)
Variable ReadFile : string -> result string.
(** yaml.Unmarshal(content, &h) into a Helmfile. *)
Variable yaml_Unmarshal_Helmfile : string -> result Helmfile.
Variable helm_repo_update : repo_update.

(** func NewHelmfile(path string), which returns a Helmfile and an error. *)
Definition NewHelmfile (path : string) : result Helmfile :=
  let fpath := filepath_Join "." path in
  match ReadFile fpath with
  | Err err => Err (wrapError ("failed to read file " +:+ fpath +:+ ": " +:+ Error err) err)
  | Ok content =>
      match yaml_Unmarshal_Helmfile content with
      | Err err => Err (wrapError ("failed to unmarshal YAML data: " +:+ Error err) err)
      | Ok h => Ok h
      end
  end.

(** func main(), the flags parsed, under the interleaving [sched] of the
    goroutines of CheckForUpdates; [None] when [sched] ends before wg.Wait()
    returns or a goroutine panics. *)
Definition main (flagStatus : string) (flagUpdateRepos : bool)
           (sched : list nat) (w : world) : option (list event * exit * world) :=
  match NewHelmfile "helmfile.yaml" with
  | Err err => Some ([], Crashed (PanicError err), w)
  | Ok helmfile =>
      let updateManager := NewUpdateManager helmfile in
      let '(out1, err) :=
        if flagUpdateRepos then UpdateRepositories helm_repo_update else ([], None) in
      match err with
      | Some err => Some (out1, Crashed (PanicError err), w)
      | None =>
          let out2 := out1 ++ (if flagUpdateRepos then [Stdout ""] else [])
                      ++ [Stdout "Comparing release versions..."] in
          match Main.CheckForUpdates helm_search_repo yaml_Unmarshal sched
                                     updateManager w with
          | None => None
          | Some (Panic p, w') => Some (out2, Crashed p, w')
          | Some (Ret (_, Some err), w') => Some (out2, Crashed (PanicError err), w')
          | Some (Ret (updateManager, None), w') =>
              let '(out3, ex) := report NewVersion RuneCountInString flagStatus
                                        (Comparisons updateManager) in
              Some (out2 ++ out3, ex, w')
          end
      end
  end.

End Program.

End MainProgram.

(** The lines of the standard output among what a run wrote. *)
Definition stdout_of (evs : list event) : list string :=
  omap (fun e => match e with Stdout line => Some line | Stderr _ => None end) evs.

(** *** What the goroutines of part_000 have done so far *)

(** The goroutine has run its lookup. *)
Definition past_lookup (t : Part000.task) : bool :=
  match Part000.t_pc t with
  | Part000.AtLookup => false
  | _ => true
  end.

(** The chart a lookup of [release] searches the registry for, if any. *)
Definition search_of (release : Release) : list string :=
  if is_local_chart (Chart release) then [] else [Chart release].

(** The goroutines that have run their lookup. *)
Definition looked_up_by (tasks : list Part000.task) : list Release :=
  flat_map (fun t => if past_lookup t then [Part000.t_release t] else []) tasks.

(** Two comparers that differ at most in the addresses of their installed
    flags. *)
Definition same_text (rc rc' : ReleaseComparer) : Prop :=
  Name (Current rc) = Name (Current rc')
  /\ Chart (Current rc) = Chart (Current rc')
  /\ Version (Current rc) = Version (Current rc')
  /\ Name (Latest rc) = Name (Latest rc')
  /\ Chart (Latest rc) = Chart (Latest rc')
  /\ Version (Latest rc) = Version (Latest rc').

(** * Theorems *)

(** ** Strings *)

Lemma substring_all (s : string) : String.substring 0 (String.length s) s = s.
Proof. induction s as [|c s IH]; simpl; [reflexivity | now rewrite IH]. Qed.

(** strings.TrimPrefix(s, "v") removes exactly one leading v. *)
Lemma TrimPrefix_v (s : string) : TrimPrefix s "v" = strip_v s.
Proof.
  unfold TrimPrefix, HasPrefix.
  destruct s as [|c s]; [reflexivity|].
  cbn [String.prefix String.length].
  destruct (ascii_dec "v" c) as [<-|Hc].
  - cbn. replace (String.length s - 0) with (String.length s) by lia.
    destruct s; [reflexivity|]. apply (substring_all (String _ _)).
  - unfold strip_v.
    destruct c as [[] [] [] [] [] [] [] []]; try reflexivity. now destruct Hc.
Qed.

(** ** The comparator *)

Section ComparatorFacts.

Variable NewVersion : string -> result semver.Version.

(** Both drafts return false, and the graceful one logs nothing, as soon as
    the two stripped versions are the same text. *)
Lemma HasUpdate_same_text (rc : ReleaseComparer) :
  strip_v (Version (Current rc)) = strip_v (Version (Latest rc)) ->
  Part000.HasUpdate NewVersion rc = (false, [])
  /\ Main.HasUpdate NewVersion rc = Ret false.
Proof.
  intros Heq. unfold Part000.HasUpdate, Main.HasUpdate.
  rewrite !TrimPrefix_v, Heq, String.eqb_refl. split; reflexivity.
Qed.

(** The draft part_000 answers false when a side does not parse. *)
Lemma Part000_HasUpdate_unparseable (rc : ReleaseComparer) :
  strip_v (Version (Current rc)) <> strip_v (Version (Latest rc)) ->
  is_Err (NewVersion (strip_v (Version (Current rc))))
  \/ is_Err (NewVersion (strip_v (Version (Latest rc)))) ->
  (Part000.HasUpdate NewVersion rc).1 = false.
Proof.
  intros Hne Herr. unfold Part000.HasUpdate. rewrite !TrimPrefix_v.
  apply String.eqb_neq in Hne. rewrite Hne.
  destruct (NewVersion (strip_v (Version (Current rc)))) as [vc|ec]; [|reflexivity].
  destruct (NewVersion (strip_v (Version (Latest rc)))) as [vl|el]; [|reflexivity].
  destruct Herr as [[e He]|[e He]]; discriminate.
Qed.

(** main.go panics on the same inputs. *)
Lemma Main_HasUpdate_unparseable (rc : ReleaseComparer) :
  strip_v (Version (Current rc)) <> strip_v (Version (Latest rc)) ->
  is_Err (NewVersion (strip_v (Version (Current rc))))
  \/ is_Err (NewVersion (strip_v (Version (Latest rc)))) ->
  exists e, Main.HasUpdate NewVersion rc = Panic (PanicError e).
Proof.
  intros Hne Herr. unfold Main.HasUpdate. rewrite !TrimPrefix_v.
  apply String.eqb_neq in Hne. rewrite Hne.
  destruct (NewVersion (strip_v (Version (Current rc)))) as [vc|ec]; [|eauto].
  destruct (NewVersion (strip_v (Version (Latest rc)))) as [vl|el]; [|eauto].
  destruct Herr as [[e He]|[e He]]; discriminate.
Qed.

(** In part_000 a comparer that answers false can be taken out of the set
    without changing what HasUpdates answers: a release whose versions do
    not parse weighs on no other release. *)
Lemma Part000_HasUpdates_drop_false (before after : list (option ReleaseComparer))
      (rc : ReleaseComparer) :
  (Part000.HasUpdate NewVersion rc).1 = false ->
  (Part000.HasUpdates NewVersion (before ++ Some rc :: after)).1
  = (Part000.HasUpdates NewVersion (before ++ after)).1.
Proof.
  intros Hrc. induction before as [|[c|] before IH]; simpl.
  - destruct (Part000.HasUpdate NewVersion rc) as [b out]. simpl in Hrc. subst b.
    now destruct (Part000.HasUpdates NewVersion after).
  - destruct (Part000.HasUpdate NewVersion c) as [[] out]; [reflexivity|].
    destruct (Part000.HasUpdates NewVersion (before ++ Some rc :: after)),
             (Part000.HasUpdates NewVersion (before ++ after)). exact IH.
  - reflexivity.
Qed.

(** With both sides parsed and the texts different, both drafts answer
    what LessThan answers. *)
Lemma HasUpdate_parsed (rc : ReleaseComparer) (vc vl : semver.Version) :
  strip_v (Version (Current rc)) <> strip_v (Version (Latest rc)) ->
  NewVersion (strip_v (Version (Current rc))) = Ok vc ->
  NewVersion (strip_v (Version (Latest rc))) = Ok vl ->
  Part000.HasUpdate NewVersion rc = (semver.LessThan vc vl, [])
  /\ Main.HasUpdate NewVersion rc = Ret (semver.LessThan vc vl).
Proof.
  intros Hne Hc Hl. unfold Part000.HasUpdate, Main.HasUpdate.
  rewrite !TrimPrefix_v. apply String.eqb_neq in Hne. rewrite Hne, Hc, Hl.
  split; reflexivity.
Qed.

End ComparatorFacts.

(** C5. The comparator strips one leading v from each side, and when the
    stripped strings are the same text it returns false at once, whatever the
    parser would say of them; so a version compared with itself is never an
    update, "main" or "latest" included.  Holds for main.go and part_000. *)
Theorem HasUpdate_identical_after_strip
        (NewVersion : string -> result semver.Version) (rc : ReleaseComparer) :
  (TrimPrefix (Version (Current rc)) "v" = strip_v (Version (Current rc))
   /\ TrimPrefix (Version (Latest rc)) "v" = strip_v (Version (Latest rc)))
  /\ (strip_v (Version (Current rc)) = strip_v (Version (Latest rc)) ->
      Part000.HasUpdate NewVersion rc = (false, [])
      /\ Main.HasUpdate NewVersion rc = Ret false)
  /\ (Version (Current rc) = Version (Latest rc) ->
      Part000.HasUpdate NewVersion rc = (false, [])
      /\ Main.HasUpdate NewVersion rc = Ret false).
Proof.
  split; [split; apply TrimPrefix_v|].
  split; [apply HasUpdate_same_text|].
  intros Heq. apply HasUpdate_same_text. now rewrite Heq.
Qed.

Lemma HasUpdate_identical_after_strip_witness :
  strip_v "v1.2.0" = strip_v "1.2.0"
  /\ Part000.HasUpdate semver.NewVersion (versions "app" "v1.2.0" "1.2.0") = (false, [])
  /\ Main.HasUpdate (fun _ => Err semver.ErrInvalidSemVer) (versions "app" "main" "main")
     = Ret false.
Proof.
  split; [reflexivity|]. split.
  - apply (proj1 (proj2 (HasUpdate_identical_after_strip
                           semver.NewVersion (versions "app" "v1.2.0" "1.2.0")))).
    reflexivity.
  - apply (proj2 (proj2 (HasUpdate_identical_after_strip
                           (fun _ => Err semver.ErrInvalidSemVer)
                           (versions "app" "main" "main")))).
    reflexivity.
Defined.

(** C10. Two comparers with the same current version and the same latest
    version get the same answer: the boolean of part_000, and in main.go the
    same boolean or a panic on both sides.  Names, chart references and
    installed flags play no part. *)
Theorem HasUpdate_depends_on_versions_only
        (NewVersion : string -> result semver.Version) (rc1 rc2 : ReleaseComparer) :
  Version (Current rc1) = Version (Current rc2) ->
  Version (Latest rc1) = Version (Latest rc2) ->
  (Part000.HasUpdate NewVersion rc1).1 = (Part000.HasUpdate NewVersion rc2).1
  /\ returned (Main.HasUpdate NewVersion rc1) = returned (Main.HasUpdate NewVersion rc2).
Proof.
  intros Hc Hl. unfold Part000.HasUpdate, Main.HasUpdate. rewrite Hc, Hl.
  destruct (_ =? _)%string; [split; reflexivity|].
  destruct (NewVersion (TrimPrefix (Version (Current rc2)) "v")); [|split; reflexivity].
  destruct (NewVersion (TrimPrefix (Version (Latest rc2)) "v")); split; reflexivity.
Qed.

Lemma HasUpdate_depends_on_versions_only_witness :
  (Part000.HasUpdate semver.NewVersion
     {| Current := {| Name := "web"; Chart := "repo/web"; Version := "1.0.0";
                      Installed := Some 0 |};
        Latest := {| Name := "web"; Chart := "web"; Version := "oops";
                     Installed := None |} |}).1
  = (Part000.HasUpdate semver.NewVersion (versions "db" "1.0.0" "oops")).1.
Proof.
  apply (HasUpdate_depends_on_versions_only semver.NewVersion); reflexivity.
Defined.

(** C1. On "not-a-version" against "1.0.0" main.go's HasUpdate panics with
    the wrapped parse error, where the claim (and the draft part_000, which
    logs and answers false) has it return false. *)
Theorem Main_HasUpdate_panics_on_unparseable_version :
  Main.HasUpdate semver.NewVersion (versions "app" "not-a-version" "1.0.0")
  = Panic (PanicError
             (wrapError
                "failed to parse current version app not-a-version: Invalid Semantic Version"
                semver.ErrInvalidSemVer))
  /\ Main.HasUpdates semver.NewVersion
       [Some (versions "app" "not-a-version" "1.0.0"); Some (versions "db" "1.0.0" "1.1.0")]
     = Panic (PanicError
                (wrapError
                   "failed to parse current version app not-a-version: Invalid Semantic Version"
                   semver.ErrInvalidSemVer))
  /\ (Part000.HasUpdate semver.NewVersion (versions "app" "not-a-version" "1.0.0")).1 = false
  /\ (Part000.HasUpdates semver.NewVersion
        [Some (versions "app" "not-a-version" "1.0.0"); Some (versions "db" "1.0.0" "1.1.0")]).1
     = Ret true.
Proof. repeat split. Qed.

(** ** HasUpdates *)

Section HasUpdatesFacts.

Variable NewVersion : string -> result semver.Version.

Local Abbreviation updatable c := ((Part000.HasUpdate NewVersion c).1 = true).

(** Where main.go's HasUpdate returns, part_000's returns the same. *)
Lemma Main_HasUpdate_agrees (rc : ReleaseComparer) (b : bool) :
  Main.HasUpdate NewVersion rc = Ret b -> (Part000.HasUpdate NewVersion rc).1 = b.
Proof.
  unfold Main.HasUpdate, Part000.HasUpdate.
  destruct (_ =? _)%string; [now intros [= <-]|].
  destruct (NewVersion (TrimPrefix (Version (Current rc)) "v")); [|discriminate].
  destruct (NewVersion (TrimPrefix (Version (Latest rc)) "v")); [|discriminate].
  now intros [= <-].
Qed.

(** Where main.go's HasUpdates returns, or stops on a nil comparer,
    part_000's does the same. *)
Lemma Main_HasUpdates_agrees (cs : list (option ReleaseComparer)) :
  match Main.HasUpdates NewVersion cs with
  | Ret b => (Part000.HasUpdates NewVersion cs).1 = Ret b
  | Panic NilDereference => (Part000.HasUpdates NewVersion cs).1 = Panic NilDereference
  | Panic (PanicError _) => True
  end.
Proof.
  induction cs as [|[c|] cs IH]; simpl; [reflexivity| |reflexivity].
  destruct (Main.HasUpdate NewVersion c) as [b|p] eqn:Hc.
  - apply Main_HasUpdate_agrees in Hc.
    destruct (Part000.HasUpdate NewVersion c) as [b' out]. simpl in Hc. subst b'.
    destruct b; [reflexivity|].
    destruct (Part000.HasUpdates NewVersion cs) as [r out'].
    destruct (Main.HasUpdates NewVersion cs) as [b|[e|]]; simpl in *; auto.
  - unfold Main.HasUpdate in Hc.
    destruct (_ =? _)%string; [discriminate|].
    destruct (NewVersion (TrimPrefix (Version (Current c)) "v"));
      [|now injection Hc as <-].
    destruct (NewVersion (TrimPrefix (Version (Latest c)) "v"));
      [discriminate|now injection Hc as <-].
Qed.

(** A set without nil entries: HasUpdates returns, and returns true
    exactly when some comparer has an update. *)
Lemma Part000_HasUpdates_no_gap (cs : list ReleaseComparer) :
  exists b, (Part000.HasUpdates NewVersion (map Some cs)).1 = Ret b
            /\ (b = true <-> exists c, In c cs /\ updatable c).
Proof.
  induction cs as [|c cs (b & Hb & Hiff)]; simpl.
  - exists false. split; [reflexivity|]. split; [discriminate|]. now intros (c & [] & _).
  - destruct (Part000.HasUpdate NewVersion c) as [[] out] eqn:Hc.
    + exists true. split; [reflexivity|]. split; [|reflexivity].
      intros _. exists c. rewrite Hc. auto.
    + destruct (Part000.HasUpdates NewVersion (map Some cs)) as [r out'].
      simpl in Hb. subst r. exists b. split; [reflexivity|].
      rewrite Hiff. split.
      * intros (c' & Hin & Hup). eauto.
      * intros (c' & [<-|Hin] & Hup); [|eauto]. rewrite Hc in Hup. discriminate.
Qed.

(** A set whose first nil entry sits after [before]: true when a comparer
    of [before] has an update, the nil dereference when none has. *)
Lemma Part000_HasUpdates_gap (before : list ReleaseComparer)
      (after : list (option ReleaseComparer)) :
  ((exists c, In c before /\ updatable c) ->
   (Part000.HasUpdates NewVersion (map Some before ++ None :: after)).1 = Ret true)
  /\ ((forall c, In c before -> ~ updatable c) ->
      (Part000.HasUpdates NewVersion (map Some before ++ None :: after)).1
      = Panic NilDereference).
Proof.
  induction before as [|c before [IH1 IH2]]; simpl.
  - split; [now intros (c & [] & _)|reflexivity].
  - destruct (Part000.HasUpdate NewVersion c) as [[] out] eqn:Hc.
    + split; [reflexivity|]. intros Hno. destruct (Hno c); [now left|now rewrite Hc].
    + destruct (Part000.HasUpdates NewVersion (map Some before ++ None :: after))
        as [r out'].
      simpl in *. split.
      * intros (c' & [<-|Hin] & Hup); [rewrite Hc in Hup; discriminate|eauto].
      * intros Hno. apply IH2. intros c' Hin. apply Hno. now right.
Qed.

End HasUpdatesFacts.

(** C7, as the code has it.  Over a set without nil entries HasUpdates
    returns true exactly when some comparer has an update, so false for an
    empty set and for a set that is up to date.  Nil entries are not skipped:
    in a set with one, HasUpdates returns true when a comparer before the
    first nil entry has an update, and otherwise dereferences that entry and
    panics. *)
Theorem HasUpdates_up_to_first_gap
        (NewVersion : string -> result semver.Version)
        (before : list ReleaseComparer) (after : list (option ReleaseComparer)) :
  (exists b, (Part000.HasUpdates NewVersion (map Some before)).1 = Ret b
             /\ (b = true <->
                 exists c, In c before /\ (Part000.HasUpdate NewVersion c).1 = true))
  /\ ((exists c, In c before /\ (Part000.HasUpdate NewVersion c).1 = true) ->
      (Part000.HasUpdates NewVersion (map Some before ++ None :: after)).1 = Ret true)
  /\ ((forall c, In c before -> (Part000.HasUpdate NewVersion c).1 <> true) ->
      (Part000.HasUpdates NewVersion (map Some before ++ None :: after)).1
      = Panic NilDereference).
Proof.
  split; [apply Part000_HasUpdates_no_gap|apply Part000_HasUpdates_gap].
Qed.

Lemma HasUpdates_up_to_first_gap_witness :
  (Part000.HasUpdates semver.NewVersion
     [Some (versions "a" "1.0.0" "1.1.0"); None; Some (versions "b" "2.0.0" "2.0.0")]).1
  = Ret true
  /\ (Part000.HasUpdates semver.NewVersion
        [Some (versions "b" "2.0.0" "2.0.0"); None; Some (versions "a" "1.0.0" "1.1.0")]).1
     = Panic NilDereference.
Proof.
  split.
  - apply (proj1 (proj2 (HasUpdates_up_to_first_gap semver.NewVersion
                           [versions "a" "1.0.0" "1.1.0"]
                           [Some (versions "b" "2.0.0" "2.0.0")]))).
    exists (versions "a" "1.0.0" "1.1.0"). split; [now left|reflexivity].
  - apply (proj2 (proj2 (HasUpdates_up_to_first_gap semver.NewVersion
                           [versions "b" "2.0.0" "2.0.0"]
                           [Some (versions "a" "1.0.0" "1.1.0")]))).
    intros c [<-|[]]. vm_compute. discriminate.
Defined.

(** C7 as written fails: a set that is one nil entry has no comparer with an
    update, yet HasUpdates does not return false on it, in either draft. *)
Lemma HasUpdates_gap_crashes :
  (Part000.HasUpdates semver.NewVersion [None]).1 <> Ret false
  /\ (Part000.HasUpdates semver.NewVersion [None]).1 = Panic NilDereference
  /\ Main.HasUpdates semver.NewVersion [None] = Panic NilDereference.
Proof. repeat split. discriminate. Qed.

(** ** GetReleaseComparer *)

Section LookupFacts.

Variable helm_search_repo : string -> result string.
Variable yaml_Unmarshal : string -> result (list HelmChartInfo.t).

Local Abbreviation lookup := (GetReleaseComparer helm_search_repo yaml_Unmarshal).

Lemma defaulted_fields (release : Release) (p : ptr) :
  Name (defaulted release p) = Name release
  /\ Chart (defaulted release p) = Chart release
  /\ Version (defaulted release p) = Version release.
Proof. unfold defaulted. now destruct (Installed release). Qed.

(** A local chart reference: the comparer holds the defaulted copy on both
    sides, and no search has been run. *)
Lemma GetReleaseComparer_local (release : Release) (w : world) :
  is_local_chart (Chart release) = true ->
  lookup release w
  = (Ok {| Current := defaulted release (length (heap w));
           Latest := defaulted release (length (heap w)) |},
     {| heap := heap w ++ [true]; searches := searches w |}).
Proof.
  intros Hloc. unfold GetReleaseComparer, new_bool.
  fold (defaulted release (length (heap w))).
  destruct (defaulted_fields release (length (heap w))) as (_ & -> & _).
  now rewrite Hloc.
Qed.

(** A registry chart reference: one search, and what comes back from it. *)
Lemma GetReleaseComparer_registry (release : Release) (w : world) :
  is_local_chart (Chart release) = false ->
  lookup release w
  = (match helm_search_repo (Chart release) with
     | Err err =>
         Err (wrapError ("failed to search for chart " +:+ Chart release
                         +:+ ": " +:+ Error err) err)
     | Ok output =>
         match yaml_Unmarshal output with
         | Err err => Err (wrapError ("failed to unmarshal YAML data: " +:+ Error err) err)
         | Ok [] => Err (errorString ("chart " +:+ Chart release +:+ " not found"))
         | Ok (chart0 :: _) =>
             Ok {| Current := defaulted release (length (heap w));
                   Latest := {| Name := Name release;
                                Chart := HelmChartInfo.Name chart0;
                                Version := HelmChartInfo.Version chart0;
                                Installed := HelmChartInfo.Installed chart0 |} |}
         end
     end,
     {| heap := heap w ++ [true]; searches := searches w ++ [Chart release] |}).
Proof.
  intros Hloc. unfold GetReleaseComparer, new_bool, run_search.
  fold (defaulted release (length (heap w))).
  destruct (defaulted_fields release (length (heap w))) as (-> & -> & _).
  rewrite Hloc. cbn [heap searches].
  destruct (helm_search_repo (Chart release)) as [output|err]; [|reflexivity].
  destruct (yaml_Unmarshal output) as [[|chart0 ?]|err]; reflexivity.
Qed.

(** Every lookup declares one bool variable, and writes to no cell that
    was there before. *)
Lemma GetReleaseComparer_heap (release : Release) (w : world) :
  heap (lookup release w).2 = heap w ++ [true].
Proof.
  destruct (is_local_chart (Chart release)) eqn:Hloc.
  - now rewrite GetReleaseComparer_local.
  - now rewrite GetReleaseComparer_registry.
Qed.

(** The copy the comparer holds as current is the release, defaulted. *)
Lemma GetReleaseComparer_Current (release : Release) (w : world) (rc : ReleaseComparer) :
  (lookup release w).1 = Ok rc -> Current rc = defaulted release (length (heap w)).
Proof.
  destruct (is_local_chart (Chart release)) eqn:Hloc.
  - rewrite GetReleaseComparer_local by done. now intros [= <-].
  - rewrite GetReleaseComparer_registry by done. cbn [fst].
    destruct (helm_search_repo (Chart release)) as [output|err]; [|discriminate].
    destruct (yaml_Unmarshal output) as [[|chart0 ?]|err]; try discriminate.
    now intros [= <-].
Qed.

(** Whether a lookup fails, and with which error, does not depend on the
    world it runs in. *)
Lemma GetReleaseComparer_error (release : Release) (w w' : world) :
  error_of (lookup release w).1 = error_of (lookup release w').1.
Proof.
  destruct (is_local_chart (Chart release)) eqn:Hloc.
  - now rewrite !GetReleaseComparer_local.
  - rewrite !GetReleaseComparer_registry by done. cbn [fst].
    destruct (helm_search_repo (Chart release)) as [output|err]; [|reflexivity].
    destruct (yaml_Unmarshal output) as [[|chart0 ?]|err]; reflexivity.
Qed.

End LookupFacts.

(** C4. For a chart reference that starts with "/", "./" or "../" the lookup
    returns a comparer whose latest side is its current side, the release
    itself up to the defaulted flag, and runs no helm search, whatever the
    registry would answer; HasUpdate is false on it in both drafts, whatever
    the version string and the parser. *)
Theorem local_chart_is_up_to_date
        (helm_search_repo : string -> result string)
        (yaml_Unmarshal : string -> result (list HelmChartInfo.t))
        (NewVersion : string -> result semver.Version)
        (release : Release) (w : world) :
  HasPrefix (Chart release) "/" = true \/ HasPrefix (Chart release) "./" = true
  \/ HasPrefix (Chart release) "../" = true ->
  exists rc w',
    GetReleaseComparer helm_search_repo yaml_Unmarshal release w = (Ok rc, w')
    /\ Latest rc = Current rc
    /\ Name (Current rc) = Name release
    /\ Chart (Current rc) = Chart release
    /\ Version (Current rc) = Version release
    /\ searches w' = searches w
    /\ Part000.HasUpdate NewVersion rc = (false, [])
    /\ Main.HasUpdate NewVersion rc = Ret false.
Proof.
  intros Hpre.
  assert (Hloc : is_local_chart (Chart release) = true).
  { unfold is_local_chart. destruct Hpre as [-> | [-> | ->]]; rewrite ?orb_true_r; reflexivity. }
  eexists _, _. split; [now apply GetReleaseComparer_local|].
  cbn [Latest Current searches].
  destruct (defaulted_fields release (length (heap w))) as (Hn & Hc & Hv).
  repeat (split; [done|]).
  now apply HasUpdate_same_text.
Qed.

Lemma local_chart_is_up_to_date_witness :
  exists rc w',
    GetReleaseComparer (fun _ => Err (errorString "helm must not run"))
                       (fun _ => Ok []) (declared "b" "./local/b" "2.0.0")
                       {| heap := []; searches := [] |} = (Ok rc, w')
    /\ Latest rc = Current rc
    /\ Name (Current rc) = "b"
    /\ Chart (Current rc) = "./local/b"
    /\ Version (Current rc) = "2.0.0"
    /\ searches w' = []
    /\ Part000.HasUpdate semver.NewVersion rc = (false, [])
    /\ Main.HasUpdate semver.NewVersion rc = Ret false.
Proof.
  apply (local_chart_is_up_to_date
           (fun _ => Err (errorString "helm must not run")) (fun _ => Ok [])
           semver.NewVersion (declared "b" "./local/b" "2.0.0")
           {| heap := []; searches := [] |}).
  right; left; reflexivity.
Defined.

(** C8. A comparer that the lookup returns has the release's name on both
    sides.  On the local branch the latest side is the current side; on the
    registry branch it is built from the first record of the search, whose
    name, version and installed flag become the chart, the version and the
    installed flag of the latest side. *)
Theorem GetReleaseComparer_preserves_name
        (helm_search_repo : string -> result string)
        (yaml_Unmarshal : string -> result (list HelmChartInfo.t))
        (release : Release) (w w' : world) (rc : ReleaseComparer) :
  GetReleaseComparer helm_search_repo yaml_Unmarshal release w = (Ok rc, w') ->
  Name (Current rc) = Name (Latest rc)
  /\ Name (Current rc) = Name release
  /\ (is_local_chart (Chart release) = true -> Latest rc = Current rc)
  /\ (is_local_chart (Chart release) = false ->
      exists output chart0 rest,
        helm_search_repo (Chart release) = Ok output
        /\ yaml_Unmarshal output = Ok (chart0 :: rest)
        /\ Latest rc = {| Name := Name release;
                          Chart := HelmChartInfo.Name chart0;
                          Version := HelmChartInfo.Version chart0;
                          Installed := HelmChartInfo.Installed chart0 |}).
Proof.
  intros Hrc.
  destruct (defaulted_fields release (length (heap w))) as (Hn & _ & _).
  destruct (is_local_chart (Chart release)) eqn:Hloc.
  - rewrite GetReleaseComparer_local in Hrc by done. injection Hrc as <- <-.
    cbn [Current Latest]. do 3 (split; [done|]). discriminate.
  - rewrite GetReleaseComparer_registry in Hrc by done.
    destruct (helm_search_repo (Chart release)) as [output|err] eqn:Hs; [|discriminate].
    destruct (yaml_Unmarshal output) as [[|chart0 rest]|err] eqn:Hy; try discriminate.
    injection Hrc as <- <-. cbn [Current Latest Name].
    split; [done|]. split; [done|]. split; [discriminate|]. intros _.
    exists output, chart0, rest. repeat split. exact Hy.
Qed.

(** ** CheckForUpdates of part_000 *)

Lemma lookup_map {A B} (f : A -> B) (l : list A) (i : nat) :
  map f l !! i = f <$> l !! i.
Proof. revert i. induction l as [|x l IH]; intros [|i]; simpl; auto. Qed.

Section Part000Engine.

Variable helm_search_repo : string -> result string.
Variable yaml_Unmarshal : string -> result (list HelmChartInfo.t).

Local Abbreviation lookup := (GetReleaseComparer helm_search_repo yaml_Unmarshal).
Local Abbreviation step := (Part000.step helm_search_repo yaml_Unmarshal).
Local Abbreviation run := (Part000.run helm_search_repo yaml_Unmarshal).

(** *** Every goroutine finishes after three turns *)

Lemma progress_step (st : Part000.state) (k i : nat) :
  progress (step st k) i
  = if decide (i = k) then Nat.min 3 (S (progress st i)) else progress st i.
Proof.
  unfold progress, Part000.step.
  destruct (Part000.st_tasks st !! k) as [[r p]|] eqn:Hk.
  - assert (Hlt : k < length (Part000.st_tasks st)) by (eapply lookup_lt_Some; eauto).
    destruct p; cbn [Part000.t_pc Part000.t_release];
      try destruct (lookup r (Part000.st_world st)) as [res w'];
      unfold Part000.set_task; cbn [Part000.st_tasks Part000.t_release];
      case_decide as Hik; subst;
      rewrite ?list_lookup_insert_eq, ?list_lookup_insert_ne, ?Hk by (auto; lia); try reflexivity.
  - case_decide as Hik; subst; rewrite ?Hk; reflexivity.
Qed.

Lemma progress_run (sched : list nat) (st : Part000.state) (i : nat) :
  progress (run sched st) i = Nat.min 3 (progress st i + count_occ Nat.eq_dec sched i).
Proof.
  assert (Hle : forall st, progress st i <= 3).
  { intros st'. unfold progress. destruct (_ !! i) as [[r []]|]; simpl; lia. }
  unfold Part000.run.
  revert st. induction sched as [|k sched IH]; intros st; cbn [foldl count_occ].
  - specialize (Hle st). lia.
  - rewrite IH, progress_step.
    specialize (Hle st). case_decide; destruct (Nat.eq_dec k i); subst; try congruence; lia.
Qed.

Lemma all_Finished (st : Part000.state) :
  forallb Part000.is_Finished (Part000.st_tasks st) = true
  <-> forall i, progress st i = 3.
Proof.
  rewrite forallb_forall. unfold progress. split.
  - intros Hall i. destruct (Part000.st_tasks st !! i) as [t|] eqn:Hi; [|reflexivity].
    assert (Hin : In t (Part000.st_tasks st)).
    { apply list_elem_of_In, list_elem_of_lookup. eauto. }
    apply Hall in Hin. unfold Part000.is_Finished in Hin. now destruct (Part000.t_pc t).
  - intros Hall t Hin. apply list_elem_of_In, list_elem_of_lookup in Hin as [i Hi].
    specialize (Hall i). rewrite Hi in Hall. unfold Part000.is_Finished.
    now destruct (Part000.t_pc t).
Qed.

Lemma progress_start (um : UpdateManager) (w : world) (i : nat) :
  progress (Part000.start um w) i
  = if decide (i < length (Releases (um_Helmfile um))) then 0 else 3.
Proof.
  unfold progress, Part000.start. cbn [Part000.st_tasks]. rewrite lookup_map.
  case_decide as Hi.
  - apply lookup_lt_is_Some in Hi as [r ->]. reflexivity.
  - rewrite lookup_ge_None_2 by lia. reflexivity.
Qed.

(** wg.Wait() returns exactly under the interleavings that give every
    goroutine its three turns. *)
Lemma CheckForUpdates_returns_iff (sched : list nat) (um : UpdateManager) (w : world) :
  is_Some (Part000.CheckForUpdates helm_search_repo yaml_Unmarshal sched um w)
  <-> forall i, i < length (Releases (um_Helmfile um)) -> 3 <= count_occ Nat.eq_dec sched i.
Proof.
  unfold Part000.CheckForUpdates.
  destruct (forallb _ _) eqn:Hall.
  - split; [|eauto]. intros _ i Hi. apply all_Finished with (i := i) in Hall.
    rewrite progress_run, progress_start in Hall. case_decide; lia.
  - split; [now intros [? [=]]|]. intros Hocc. exfalso.
    apply not_true_iff_false in Hall. apply Hall, all_Finished. intros i.
    rewrite progress_run, progress_start. case_decide as Hi; [|lia].
    specialize (Hocc i Hi). lia.
Qed.

Lemma count_occ_in_order (n i : nat) :
  i < n -> count_occ Nat.eq_dec (in_order n) i = 3.
Proof.
  unfold in_order. intros Hi.
  assert (Hgen : forall m s, count_occ Nat.eq_dec (flat_map (fun i => [i; i; i]) (seq s m)) i
                             = if decide (s <= i < s + m) then 3 else 0).
  { induction m as [|m IH]; intros s; simpl.
    - case_decide; [lia|reflexivity].
    - rewrite IH. destruct (Nat.eq_dec s i); repeat case_decide; lia. }
  rewrite Hgen. case_decide; [reflexivity|lia].
Qed.

(** Run one goroutine after the other, CheckForUpdates returns. *)
Lemma CheckForUpdates_in_order_returns (um : UpdateManager) (w : world) :
  is_Some (Part000.CheckForUpdates helm_search_repo yaml_Unmarshal
             (in_order (length (Releases (um_Helmfile um)))) um w).
Proof.
  apply CheckForUpdates_returns_iff. intros i Hi. rewrite count_occ_in_order; lia.
Qed.

(** *** What the interleavings keep true *)

(** A turn of goroutine [k] changes what a goroutine holds only when it is
    the lookup of [k] itself. *)
Lemma held_step (st : Part000.state) (k i : nat) :
  k < length (Part000.st_comparisons st) ->
  held (step st k) i
  = match Part000.st_tasks st !! k with
    | Some t =>
        match Part000.t_pc t with
        | Part000.AtLookup =>
            if decide (i = k)
            then Some (comparer_of (lookup (Part000.t_release t) (Part000.st_world st)).1)
            else held st i
        | _ => held st i
        end
    | None => held st i
    end.
Proof.
  intros Hlen. unfold held, Part000.step.
  destruct (Part000.st_tasks st !! k) as [[r p]|] eqn:Hk; [|reflexivity].
  assert (Hlt : k < length (Part000.st_tasks st)) by (eapply lookup_lt_Some; eauto).
  destruct p; cbn [Part000.t_pc Part000.t_release];
    try destruct (lookup r (Part000.st_world st)) as [res w'];
    unfold Part000.set_task;
    cbn [Part000.st_tasks Part000.st_comparisons Part000.t_release fst];
    try case_decide; destruct (decide (i = k)) as [->|Hik]; try congruence;
    rewrite ?list_lookup_insert_eq, ?list_lookup_insert_ne, ?Hk by (auto; lia);
    try reflexivity.
Qed.

Lemma step_releases (st : Part000.state) (k i : nat) :
  Part000.t_release <$> Part000.st_tasks (step st k) !! i
  = Part000.t_release <$> Part000.st_tasks st !! i.
Proof.
  unfold Part000.step.
  destruct (Part000.st_tasks st !! k) as [[r p]|] eqn:Hk; [|reflexivity].
  assert (Hlt : k < length (Part000.st_tasks st)) by (eapply lookup_lt_Some; eauto).
  destruct p; cbn [Part000.t_pc Part000.t_release];
    try destruct (lookup r (Part000.st_world st)) as [res w'];
    unfold Part000.set_task; cbn [Part000.st_tasks Part000.t_release];
    try reflexivity;
    (destruct (decide (i = k)) as [->|Hik];
     [rewrite list_lookup_insert_eq, Hk by lia|rewrite list_lookup_insert_ne by auto];
     reflexivity).
Qed.

(** The heap and the slots after a turn of goroutine [k]. *)
Lemma step_shared (st : Part000.state) (k : nat) :
  length (Part000.st_comparisons (step st k)) = length (Part000.st_comparisons st)
  /\ (heap (Part000.st_world (step st k)) = heap (Part000.st_world st)
      \/ (exists t, Part000.st_tasks st !! k = Some t
                    /\ Part000.t_pc t = Part000.AtLookup)
         /\ heap (Part000.st_world (step st k)) = heap (Part000.st_world st) ++ [true]).
Proof.
  unfold Part000.step.
  destruct (Part000.st_tasks st !! k) as [[r p]|] eqn:Hk; [|auto].
  destruct p; cbn [Part000.t_pc Part000.t_release]; auto.
  - pose proof (GetReleaseComparer_heap helm_search_repo yaml_Unmarshal r
                  (Part000.st_world st)) as Hheap.
    destruct (lookup r (Part000.st_world st)) as [res w'].
    cbn [Part000.st_comparisons Part000.st_world snd] in *. split; [reflexivity|].
    right. split; [eexists; split; [reflexivity|reflexivity]|exact Hheap].
  - cbn [Part000.st_comparisons Part000.st_world]. split; [apply length_insert|auto].
Qed.

(** The address a lookup leaves in the current side of its comparer when
    the release carried none. *)
Lemma looked_up_address (release : Release) (lo hi : nat) (rc : ReleaseComparer) :
  Installed release = None ->
  looked_up helm_search_repo yaml_Unmarshal release lo hi (Some rc) ->
  exists p, Installed (Current rc) = Some p /\ lo <= p < hi.
Proof.
  intros Hnone (wi & Hbound & Hrc).
  destruct (lookup release wi).1 as [rc'|e] eqn:Hl; [|discriminate].
  injection Hrc as ->. apply GetReleaseComparer_Current in Hl. rewrite Hl.
  unfold defaulted. rewrite Hnone. eauto.
Qed.

Lemma lookup_address (release : Release) (w : world) (rc : ReleaseComparer) :
  Installed release = None ->
  comparer_of (lookup release w).1 = Some rc ->
  Installed (Current rc) = Some (length (heap w)).
Proof.
  intros Hnone Hrc.
  destruct (lookup release w).1 as [rc'|e] eqn:Hl; [|discriminate].
  injection Hrc as ->. apply GetReleaseComparer_Current in Hl. rewrite Hl.
  unfold defaulted. now rewrite Hnone.
Qed.

Lemma Inv_start (um : UpdateManager) (w0 : world) :
  Inv helm_search_repo yaml_Unmarshal um w0 (Part000.start um w0).
Proof.
  split; unfold Part000.start; cbn [Part000.st_comparisons Part000.st_tasks Part000.st_world].
  - apply length_replicate.
  - intros i. rewrite lookup_map. now destruct (Releases (um_Helmfile um) !! i).
  - exists 0. simpl. now rewrite app_nil_r.
  - intros i release c Hrel. unfold held. cbn [Part000.st_tasks].
    rewrite lookup_map, Hrel. discriminate.
  - intros i j release release' rc rc' _ Hrel _ _ _. unfold held. cbn [Part000.st_tasks].
    rewrite lookup_map, Hrel. discriminate.
Qed.

Lemma Inv_step (um : UpdateManager) (w0 : world) (st : Part000.state) (k : nat) :
  Inv helm_search_repo yaml_Unmarshal um w0 st ->
  Inv helm_search_repo yaml_Unmarshal um w0 (step st k).
Proof.
  intros [Hslots Htasks [n Hheap] Hheld Hown].
  destruct (Part000.st_tasks st !! k) as [t|] eqn:Hk;
    [|unfold Part000.step; rewrite Hk; now split; eauto].
  assert (Hrel : Releases (um_Helmfile um) !! k = Some (Part000.t_release t)).
  { rewrite <- Htasks, Hk. reflexivity. }
  assert (Hlt : k < length (Part000.st_comparisons st)).
  { rewrite Hslots. eapply lookup_lt_Some; eauto. }
  destruct (step_shared st k) as [Hlen Hw].
  assert (Hgrow : length (heap (Part000.st_world st))
                  <= length (heap (Part000.st_world (step st k)))).
  { destruct Hw as [->|[_ ->]]; rewrite ?length_app; simpl; lia. }
  assert (Hwiden : forall release c,
             looked_up helm_search_repo yaml_Unmarshal release (length (heap w0))
                       (length (heap (Part000.st_world st))) c ->
             looked_up helm_search_repo yaml_Unmarshal release (length (heap w0))
                       (length (heap (Part000.st_world (step st k)))) c).
  { intros release c (wi & Hb & Hwi). exists wi. split; [lia|done]. }
  assert (Hnew : forall release c,
             Part000.t_pc t = Part000.AtLookup ->
             Releases (um_Helmfile um) !! k = Some release ->
             c = comparer_of (lookup (Part000.t_release t) (Part000.st_world st)).1 ->
             looked_up helm_search_repo yaml_Unmarshal release (length (heap w0))
                       (length (heap (Part000.st_world (step st k)))) c).
  { intros release c Hpc Hrel' ->. rewrite Hrel in Hrel'. injection Hrel' as <-.
    exists (Part000.st_world st). split; [|reflexivity].
    destruct Hw as [Hsame|[_ ->]].
    - exfalso. revert Hsame. unfold Part000.step. rewrite Hk, Hpc.
      pose proof (GetReleaseComparer_heap helm_search_repo yaml_Unmarshal
                    (Part000.t_release t) (Part000.st_world st)) as Hh.
      destruct (lookup _ _) as [res w']. cbn [Part000.st_world snd] in *. rewrite Hh.
      intros Heq. apply (f_equal length) in Heq. rewrite length_app in Heq. simpl in Heq. lia.
    - rewrite Hheap, !length_app. simpl. lia. }
  assert (Hfresh : forall i release release' rc rc',
             Releases (um_Helmfile um) !! k = Some release -> Installed release = None ->
             Releases (um_Helmfile um) !! i = Some release' -> Installed release' = None ->
             comparer_of (lookup (Part000.t_release t) (Part000.st_world st)).1 = Some rc ->
             held st i = Some (Some rc') ->
             Installed (Current rc) <> Installed (Current rc')).
  { intros i release release' rc rc' Hrel' Hnone Hi Hnone' Hrc Hrc'.
    rewrite Hrel in Hrel'. injection Hrel' as <-.
    rewrite (lookup_address _ _ _ Hnone Hrc).
    destruct (looked_up_address release' (length (heap w0))
                (length (heap (Part000.st_world st))) rc' Hnone')
      as (p' & -> & Hbp'); [eauto|].
    intros [= Heq]. lia. }
  split.
  - now rewrite Hlen.
  - intros i. rewrite step_releases. apply Htasks.
  - destruct Hw as [->|[_ ->]]; [eauto|]. exists (S n).
    rewrite Hheap, replicate_S_end, app_assoc. reflexivity.
  - intros i release c Hi. rewrite held_step, Hk by done.
    destruct (Part000.t_pc t) eqn:Hpc; try solve [intros Hheld'; apply Hwiden; eauto].
    case_decide as Hik; [subst i|solve [intros Hheld'; apply Hwiden; eauto]].
    intros [= <-]. now apply Hnew.
  - intros i j release release' rc rc' Hij Hi Hnone Hj Hnone'.
    rewrite !held_step, Hk by done.
    destruct (Part000.t_pc t) eqn:Hpc; try solve [eapply Hown; eauto].
    repeat case_decide; subst; try congruence.
    + intros [= Hrc] Hrc'. apply (Hfresh j release release' rc rc'); auto.
    + intros Hrc [= Hrc']. apply not_eq_sym, (Hfresh i release' release rc' rc); auto.
    + eapply Hown; eauto.
Qed.

Lemma Inv_run (um : UpdateManager) (w0 : world) (sched : list nat) :
  Inv helm_search_repo yaml_Unmarshal um w0 (run sched (Part000.start um w0)).
Proof.
  unfold Part000.run. generalize (Inv_start um w0).
  generalize (Part000.start um w0). induction sched as [|k sched IH]; intros st Hst.
  - exact Hst.
  - simpl. apply IH, Inv_step, Hst.
Qed.

(** Once a goroutine is done, what it holds is what its slot holds. *)
Lemma held_Finished (st : Part000.state) (i : nat) (release : Release) :
  Part000.t_release <$> Part000.st_tasks st !! i = Some release ->
  progress st i = 3 ->
  held st i = Part000.st_comparisons st !! i.
Proof.
  unfold progress, held. destruct (Part000.st_tasks st !! i) as [[r p]|]; [|discriminate].
  destruct p; simpl; intros _ [=]. reflexivity.
Qed.

(** What CheckForUpdates returns comes from a state in which every
    goroutine is done and the invariant holds. *)
Lemma CheckForUpdates_inv (sched : list nat) (um um' : UpdateManager) (w w' : world)
      (e : option error) :
  Part000.CheckForUpdates helm_search_repo yaml_Unmarshal sched um w = Some (um', e, w') ->
  exists st,
    Inv helm_search_repo yaml_Unmarshal um w st
    /\ (forall i, progress st i = 3)
    /\ um' = {| um_Helmfile := um_Helmfile um; Comparisons := Part000.st_comparisons st |}
    /\ e = Part000.st_err st /\ w' = Part000.st_world st.
Proof.
  unfold Part000.CheckForUpdates. destruct (forallb _ _) eqn:Hall; [|discriminate].
  intros [= <- <- <-]. exists (run sched (Part000.start um w)).
  split; [apply Inv_run|]. split; [apply all_Finished, Hall|]. repeat split.
Qed.

Lemma CheckForUpdates_slots (sched : list nat) (um um' : UpdateManager) (w w' : world)
      (e : option error) :
  Part000.CheckForUpdates helm_search_repo yaml_Unmarshal sched um w = Some (um', e, w') ->
  length (Comparisons um') = length (Releases (um_Helmfile um))
  /\ forall i release,
      Releases (um_Helmfile um) !! i = Some release ->
      exists wi, Comparisons um' !! i = Some (comparer_of (lookup release wi).1).
Proof.
  intros (st & [Hslots Htasks _ Hheld _] & Hdone & -> & _ & _)%CheckForUpdates_inv.
  cbn [Comparisons]. split; [exact Hslots|]. intros i release Hi.
  assert (Hlt : i < length (Part000.st_comparisons st)).
  { rewrite Hslots. eapply lookup_lt_Some; eauto. }
  apply lookup_lt_is_Some in Hlt as [c Hc].
  destruct (Hheld i release c Hi) as (wi & _ & ->); [|eauto].
  rewrite <- Hc. apply (held_Finished st i release); [|apply Hdone].
  now rewrite Htasks.
Qed.

(** The heap after CheckForUpdates, and the cells the comparers point to. *)
Lemma CheckForUpdates_cells (sched : list nat) (um um' : UpdateManager) (w w' : world)
      (e : option error) :
  Part000.CheckForUpdates helm_search_repo yaml_Unmarshal sched um w = Some (um', e, w') ->
  um_Helmfile um' = um_Helmfile um
  /\ (exists n, heap w' = heap w ++ replicate n true)
  /\ (forall i release rc,
        Releases (um_Helmfile um) !! i = Some release -> Installed release = None ->
        Comparisons um' !! i = Some (Some rc) ->
        exists p, Installed (Current rc) = Some p
                  /\ length (heap w) <= p /\ heap w' !! p = Some true)
  /\ (forall i j release release' rc rc',
        i <> j ->
        Releases (um_Helmfile um) !! i = Some release -> Installed release = None ->
        Releases (um_Helmfile um) !! j = Some release' -> Installed release' = None ->
        Comparisons um' !! i = Some (Some rc) -> Comparisons um' !! j = Some (Some rc') ->
        Installed (Current rc) <> Installed (Current rc')).
Proof.
  intros (st & [Hslots Htasks [n Hheap] Hheld Hown] & Hdone & -> & _ & ->)%CheckForUpdates_inv.
  cbn [Comparisons um_Helmfile].
  assert (Hfin : forall i release, Releases (um_Helmfile um) !! i = Some release ->
                                   held st i = Part000.st_comparisons st !! i).
  { intros i release Hi. apply (held_Finished st i release); [|apply Hdone].
    now rewrite Htasks. }
  split; [reflexivity|]. split; [eauto|]. split.
  - intros i release rc Hi Hnone Hrc.
    rewrite <- (Hfin i release Hi) in Hrc.
    destruct (looked_up_address release _ _ rc Hnone (Hheld i release _ Hi Hrc))
      as (p & Hp & Hlo & Hhi).
    exists p. split; [exact Hp|]. split; [exact Hlo|].
    rewrite Hheap in Hhi |- *. rewrite length_app, length_replicate in Hhi.
    rewrite lookup_app_r by lia. apply lookup_replicate_2. lia.
  - intros i j release release' rc rc' Hij Hi Hnone Hj Hnone' Hrc Hrc'.
    rewrite <- (Hfin i release Hi) in Hrc. rewrite <- (Hfin j release' Hj) in Hrc'.
    eapply (Hown i j); eauto.
Qed.

End Part000Engine.

(** ** CheckForUpdates of main.go *)

Section MainEngine.

Variable helm_search_repo : string -> result string.
Variable yaml_Unmarshal : string -> result (list HelmChartInfo.t).

Local Abbreviation lookup := (GetReleaseComparer helm_search_repo yaml_Unmarshal).
Local Abbreviation step := (Main.step helm_search_repo yaml_Unmarshal).
Local Abbreviation run := (Main.run helm_search_repo yaml_Unmarshal).

(** After a panic nothing runs. *)
Lemma Main_panic_sticky (sched : list nat) (st : Main.state) :
  is_Some (Main.st_panic st) -> run sched st = st.
Proof.
  unfold Main.run. intros [p Hp]. induction sched as [|k sched IH]; [reflexivity|].
  simpl. unfold Main.step at 2. rewrite Hp. exact IH.
Qed.

Lemma Main_held_step (st : Main.state) (k i : nat) :
  k < length (Main.st_comparisons st) ->
  Main_held (step st k) i
  = match Main.st_panic st, Main.st_tasks st !! k with
    | None, Some t =>
        match Main.t_pc t with
        | Main.AtLookup =>
            if decide (i = k)
            then Some (comparer_of (lookup (Main.t_release t) (Main.st_world st)).1)
            else Main_held st i
        | _ => Main_held st i
        end
    | _, _ => Main_held st i
    end.
Proof.
  intros Hlen. unfold Main_held, Main.step.
  destruct (Main.st_panic st); [reflexivity|].
  destruct (Main.st_tasks st !! k) as [[r p]|] eqn:Hk; [|reflexivity].
  assert (Hlt : k < length (Main.st_tasks st)) by (eapply lookup_lt_Some; eauto).
  destruct p; cbn [Main.t_pc Main.t_release];
    try destruct (lookup r (Main.st_world st)) as [res w'];
    unfold Main.set_task;
    cbn [Main.st_tasks Main.st_comparisons Main.t_release fst];
    try case_decide; destruct (decide (i = k)) as [->|Hik]; try congruence;
    rewrite ?list_lookup_insert_eq, ?list_lookup_insert_ne, ?Hk by (auto; lia);
    try reflexivity.
Qed.

Lemma Main_step_shared (st : Main.state) (k i : nat) :
  length (Main.st_comparisons (step st k)) = length (Main.st_comparisons st)
  /\ Main.t_release <$> Main.st_tasks (step st k) !! i
     = Main.t_release <$> Main.st_tasks st !! i.
Proof.
  unfold Main.step. destruct (Main.st_panic st); [auto|].
  destruct (Main.st_tasks st !! k) as [[r p]|] eqn:Hk; [|auto].
  assert (Hlt : k < length (Main.st_tasks st)) by (eapply lookup_lt_Some; eauto).
  destruct p; cbn [Main.t_pc Main.t_release];
    try destruct (lookup r (Main.st_world st)) as [res w'];
    unfold Main.set_task; cbn [Main.st_tasks Main.st_comparisons Main.t_release];
    rewrite ?length_insert; (split; [reflexivity|]); try reflexivity;
    (destruct (decide (i = k)) as [->|Hik];
     [rewrite list_lookup_insert_eq, Hk by lia|rewrite list_lookup_insert_ne by auto];
     reflexivity).
Qed.

Lemma Main_Inv_start (um : UpdateManager) (w0 : world) :
  Main_Inv helm_search_repo yaml_Unmarshal um (Main.start um w0).
Proof.
  split; unfold Main.start; cbn [Main.st_comparisons Main.st_tasks].
  - apply length_replicate.
  - intros i. rewrite lookup_map. now destruct (Releases (um_Helmfile um) !! i).
  - intros i release c Hrel. unfold Main_held. cbn [Main.st_tasks].
    rewrite lookup_map, Hrel. discriminate.
Qed.

Lemma Main_Inv_step (um : UpdateManager) (st : Main.state) (k : nat) :
  Main_Inv helm_search_repo yaml_Unmarshal um st ->
  Main_Inv helm_search_repo yaml_Unmarshal um (step st k).
Proof.
  intros [Hslots Htasks Hheld].
  destruct (Main.st_tasks st !! k) as [t|] eqn:Hk; cycle 1.
  { unfold Main.step. rewrite Hk. destruct (Main.st_panic st); now split. }
  assert (Hrel : Releases (um_Helmfile um) !! k = Some (Main.t_release t)).
  { rewrite <- Htasks, Hk. reflexivity. }
  assert (Hlt : k < length (Main.st_comparisons st)).
  { rewrite Hslots. eapply lookup_lt_Some; eauto. }
  split.
  - now rewrite (proj1 (Main_step_shared st k 0)).
  - intros i. rewrite (proj2 (Main_step_shared st k i)). apply Htasks.
  - intros i release c Hi. rewrite Main_held_step, Hk by done.
    destruct (Main.st_panic st); [eauto|].
    destruct (Main.t_pc t); try solve [eauto].
    case_decide as Hik; [subst i|solve [eauto]].
    intros [= <-]. rewrite Hrel in Hi. injection Hi as <-. eauto.
Qed.

Lemma Main_Inv_run (um : UpdateManager) (w0 : world) (sched : list nat) :
  Main_Inv helm_search_repo yaml_Unmarshal um (run sched (Main.start um w0)).
Proof.
  unfold Main.run. generalize (Main_Inv_start um w0).
  generalize (Main.start um w0). induction sched as [|k sched IH]; intros st Hst.
  - exact Hst.
  - simpl. apply IH, Main_Inv_step, Hst.
Qed.

(** When main.go's CheckForUpdates returns it returns the nil error, the
    manager's Helmfile as it was, and in slot [i] what the lookup of release
    [i] returned. *)
Lemma Main_CheckForUpdates_slots (sched : list nat) (um um' : UpdateManager)
      (w w' : world) (e : option error) :
  Main.CheckForUpdates helm_search_repo yaml_Unmarshal sched um w
  = Some (Ret (um', e), w') ->
  e = None
  /\ um_Helmfile um' = um_Helmfile um
  /\ length (Comparisons um') = length (Releases (um_Helmfile um))
  /\ forall i release,
      Releases (um_Helmfile um) !! i = Some release ->
      exists wi, Comparisons um' !! i = Some (comparer_of (lookup release wi).1).
Proof.
  unfold Main.CheckForUpdates.
  destruct (Main_Inv_run um w sched) as [Hslots Htasks Hheld].
  destruct (Main.st_panic _); [discriminate|].
  destruct (forallb _ _) eqn:Hall; [|discriminate].
  intros [= <- <- <-]. cbn [Comparisons um_Helmfile app].
  do 2 (split; [reflexivity|]). split; [exact Hslots|].
  intros i release Hi.
  assert (Hlt : i < length (Main.st_comparisons (run sched (Main.start um w)))).
  { rewrite Hslots. eapply lookup_lt_Some; eauto. }
  apply lookup_lt_is_Some in Hlt as [c Hc].
  destruct (Hheld i release c Hi) as (wi & ->); [|eauto].
  rewrite <- Hc. unfold Main_held.
  specialize (Htasks i). rewrite Hi in Htasks.
  destruct (Main.st_tasks _ !! i) as [t|] eqn:Ht; [|discriminate].
  rewrite forallb_forall in Hall.
  assert (Hin : In t (Main.st_tasks (run sched (Main.start um w)))).
  { apply list_elem_of_In, list_elem_of_lookup. eauto. }
  apply Hall in Hin. unfold Main.is_Finished in Hin.
  now destruct (Main.t_pc t).
Qed.

(** *** main.go's CheckForUpdates ends: it returns or it panics *)

Lemma Main_progress_step (st : Main.state) (k i : nat) :
  Main.st_panic st = None ->
  Main_progress (step st k) i
  = if decide (i = k) then Nat.min 2 (S (Main_progress st i)) else Main_progress st i.
Proof.
  intros Hp. unfold Main_progress, Main.step. rewrite Hp.
  destruct (Main.st_tasks st !! k) as [[r p]|] eqn:Hk.
  - assert (Hlt : k < length (Main.st_tasks st)) by (eapply lookup_lt_Some; eauto).
    destruct p; cbn [Main.t_pc Main.t_release];
      try destruct (lookup r (Main.st_world st)) as [res w'];
      unfold Main.set_task; cbn [Main.st_tasks Main.t_release];
      case_decide as Hik; subst;
      rewrite ?list_lookup_insert_eq, ?list_lookup_insert_ne, ?Hk by (auto; lia); try reflexivity.
  - case_decide as Hik; subst; rewrite ?Hk; reflexivity.
Qed.

Lemma Main_progress_run (sched : list nat) (st : Main.state) (i : nat) :
  Main.st_panic (run sched st) = None ->
  Main_progress (run sched st) i
  = Nat.min 2 (Main_progress st i + count_occ Nat.eq_dec sched i).
Proof.
  assert (Hle : forall st, Main_progress st i <= 2).
  { intros st'. unfold Main_progress. destruct (_ !! i) as [[r []]|]; simpl; lia. }
  revert st. induction sched as [|k sched IH]; intros st.
  - intros _. unfold Main.run. cbn [foldl count_occ]. specialize (Hle st). lia.
  - destruct (Main.st_panic st) as [p|] eqn:Hp.
    { rewrite Main_panic_sticky by (rewrite Hp; eauto). congruence. }
    change (run (k :: sched) st) with (run sched (step st k)).
    intros Hrun. rewrite (IH _ Hrun), Main_progress_step by exact Hp.
    cbn [count_occ]. specialize (Hle st).
    case_decide; destruct (Nat.eq_dec k i); subst; try congruence; lia.
Qed.

Lemma Main_CheckForUpdates_in_order_ends (um : UpdateManager) (w : world) :
  is_Some (Main.CheckForUpdates helm_search_repo yaml_Unmarshal
             (in_order (length (Releases (um_Helmfile um)))) um w).
Proof.
  unfold Main.CheckForUpdates.
  destruct (Main.st_panic _) eqn:Hp; [eauto|].
  destruct (forallb _ _) eqn:Hall; [eauto|]. exfalso.
  apply not_true_iff_false in Hall. apply Hall, forallb_forall.
  intros t [i Hi]%list_elem_of_In%list_elem_of_lookup.
  pose proof (Main_progress_run _ _ i Hp) as Hprog.
  unfold Main_progress at 1 in Hprog. rewrite Hi in Hprog.
  assert (Hlt : i < length (Releases (um_Helmfile um))).
  { destruct (Main_Inv_run um w (in_order (length (Releases (um_Helmfile um)))))
      as [_ Htasks _].
    eapply lookup_lt_Some. rewrite <- Htasks, Hi. reflexivity. }
  rewrite count_occ_in_order in Hprog by exact Hlt.
  unfold Main.is_Finished. destruct (Main.t_pc t); simpl in Hprog; try lia.
  - destruct (Main_progress _ i); simpl in Hprog; lia.
  - destruct (Main_progress _ i) as [|[|?]]; simpl in Hprog; lia.
Qed.

End MainEngine.

(** ** The comparison set *)

(** C3. Under every interleaving of the goroutines under which
    CheckForUpdates returns, in part_000 and in main.go, the comparison set
    has one slot a release and slot [i] holds what the lookup of release [i]
    returned: nil when it failed, else a comparer whose current side is
    release [i]. *)
Theorem CheckForUpdates_preserves_manifest_order
        (helm_search_repo : string -> result string)
        (yaml_Unmarshal : string -> result (list HelmChartInfo.t))
        (sched : list nat) (um um' : UpdateManager) (w w' : world) (e : option error) :
  Part000.CheckForUpdates helm_search_repo yaml_Unmarshal sched um w = Some (um', e, w')
  \/ Main.CheckForUpdates helm_search_repo yaml_Unmarshal sched um w
     = Some (Ret (um', e), w') ->
  length (Comparisons um') = length (Releases (um_Helmfile um))
  /\ (forall i release,
        Releases (um_Helmfile um) !! i = Some release ->
        exists wi,
          Comparisons um' !! i
          = Some (comparer_of (GetReleaseComparer helm_search_repo yaml_Unmarshal
                                                  release wi).1))
  /\ (forall i rc,
        Comparisons um' !! i = Some (Some rc) ->
        exists release,
          Releases (um_Helmfile um) !! i = Some release
          /\ Name (Current rc) = Name release
          /\ Chart (Current rc) = Chart release
          /\ Version (Current rc) = Version release).
Proof.
  intros Hrun.
  assert (Hslots : length (Comparisons um') = length (Releases (um_Helmfile um))
                   /\ forall i release,
                       Releases (um_Helmfile um) !! i = Some release ->
                       exists wi,
                         Comparisons um' !! i
                         = Some (comparer_of (GetReleaseComparer helm_search_repo
                                                yaml_Unmarshal release wi).1)).
  { destruct Hrun as [Hrun|Hrun].
    - eapply CheckForUpdates_slots; eauto.
    - eapply Main_CheckForUpdates_slots in Hrun. tauto. }
  destruct Hslots as [Hlen Hslot]. split; [exact Hlen|]. split; [exact Hslot|].
  intros i rc Hrc.
  assert (Hlt : i < length (Releases (um_Helmfile um))).
  { rewrite <- Hlen. eapply lookup_lt_Some; eauto. }
  apply lookup_lt_is_Some in Hlt as [release Hi]. exists release. split; [exact Hi|].
  destruct (Hslot i release Hi) as (wi & Hwi). rewrite Hwi in Hrc.
  destruct (GetReleaseComparer helm_search_repo yaml_Unmarshal release wi).1
    as [rc'|err] eqn:Hl; [|discriminate].
  injection Hrc as ->. apply GetReleaseComparer_Current in Hl. rewrite Hl.
  apply defaulted_fields.
Qed.

Lemma CheckForUpdates_preserves_manifest_order_witness :
  exists um' e w',
    Part000.CheckForUpdates example_search example_yaml [1; 0; 1; 0; 0; 1]
                            example_manager empty_world = Some (um', e, w')
    /\ length (Comparisons um') = 2
    /\ exists wi,
        Comparisons um' !! 1
        = Some (comparer_of (GetReleaseComparer example_search example_yaml
                                                (declared "b" "./local/b" "2.0.0") wi).1).
Proof.
  eexists _, _, _. split; [vm_compute; reflexivity|].
  match goal with
  | |- length (Comparisons ?um') = _ /\ _ =>
      pose proof (CheckForUpdates_preserves_manifest_order
                    example_search example_yaml [1; 0; 1; 0; 0; 1]
                    example_manager um' empty_world _ _ (or_introl eq_refl)) as H
  end.
  destruct H as (Hlen & Hslot & _). split; [exact Hlen|].
  apply (Hslot 1 (declared "b" "./local/b" "2.0.0")). reflexivity.
Defined.

(** ** The installed flag *)

(** C9. A lookup of a release whose installed flag is unset declares its own
    bool variable, set to true, and puts its address in its own copy of the
    release: no cell that was there before is written, and a second lookup
    gets another cell.  After CheckForUpdates, in both drafts, the manager
    holds the Helmfile it held before, flags still unset; in part_000
    (whose set may be partial) every comparer of such a release points to a
    cell of its own, allocated during the run and holding true. *)
Theorem installed_default_stays_in_the_call
        (helm_search_repo : string -> result string)
        (yaml_Unmarshal : string -> result (list HelmChartInfo.t)) :
  (forall release w rc,
      Installed release = None ->
      (GetReleaseComparer helm_search_repo yaml_Unmarshal release w).1 = Ok rc ->
      let w1 := (GetReleaseComparer helm_search_repo yaml_Unmarshal release w).2 in
      heap w1 = heap w ++ [true]
      /\ Installed (Current rc) = Some (length (heap w))
      /\ heap w1 !! length (heap w) = Some true
      /\ forall rc',
          (GetReleaseComparer helm_search_repo yaml_Unmarshal release w1).1 = Ok rc' ->
          Installed (Current rc') <> Installed (Current rc))
  /\ (forall sched um w um' e w',
         Part000.CheckForUpdates helm_search_repo yaml_Unmarshal sched um w
         = Some (um', e, w') ->
         um_Helmfile um' = um_Helmfile um
         /\ (exists n, heap w' = heap w ++ replicate n true)
         /\ (forall i release rc,
               Releases (um_Helmfile um) !! i = Some release -> Installed release = None ->
               Comparisons um' !! i = Some (Some rc) ->
               exists p, Installed (Current rc) = Some p
                         /\ length (heap w) <= p /\ heap w' !! p = Some true)
         /\ (forall i j release release' rc rc',
               i <> j ->
               Releases (um_Helmfile um) !! i = Some release -> Installed release = None ->
               Releases (um_Helmfile um) !! j = Some release' -> Installed release' = None ->
               Comparisons um' !! i = Some (Some rc) ->
               Comparisons um' !! j = Some (Some rc') ->
               Installed (Current rc) <> Installed (Current rc')))
  /\ (forall sched um w um' e w',
         Main.CheckForUpdates helm_search_repo yaml_Unmarshal sched um w
         = Some (Ret (um', e), w') ->
         um_Helmfile um' = um_Helmfile um).
Proof.
  split; [|split].
  - intros release w rc Hnone Hrc w1. subst w1.
    rewrite GetReleaseComparer_heap.
    pose proof (lookup_address helm_search_repo yaml_Unmarshal release w rc Hnone) as Hp.
    rewrite Hrc in Hp. specialize (Hp eq_refl).
    split; [reflexivity|]. split; [exact Hp|]. split.
    + rewrite lookup_app_r by lia. now rewrite Nat.sub_diag.
    + intros rc' Hrc'.
      pose proof (lookup_address helm_search_repo yaml_Unmarshal release
                    (GetReleaseComparer helm_search_repo yaml_Unmarshal release w).2
                    rc' Hnone) as Hp'.
      rewrite Hrc' in Hp'. specialize (Hp' eq_refl).
      rewrite Hp, Hp', GetReleaseComparer_heap, length_app. simpl.
      intros [= Heq]. lia.
  - intros sched um w um' e w'. apply CheckForUpdates_cells.
  - intros sched um w um' e w' Hrun.
    eapply Main_CheckForUpdates_slots in Hrun. tauto.
Qed.

Lemma installed_default_stays_in_the_call_witness :
  exists um' e w',
    Part000.CheckForUpdates example_search example_yaml (in_order 2)
                            example_manager empty_world = Some (um', e, w')
    /\ um_Helmfile um' = um_Helmfile example_manager
    /\ Installed <$> Releases (um_Helmfile um') = [None; None].
Proof.
  eexists _, _, _. split; [vm_compute; reflexivity|].
  match goal with
  | |- um_Helmfile ?um' = _ /\ _ =>
      pose proof (proj1 (proj1 (proj2 (installed_default_stays_in_the_call
                                         example_search example_yaml))
                           (in_order 2) example_manager empty_world um' _ _ eq_refl)) as H
  end.
  split; [exact H|reflexivity].
Defined.

(** C2. Release c fails its lookup and release b, looked up after it, does
    not: part_000's CheckForUpdates returns the nil error, the failure of c
    overwritten by the nil that the lookup of b assigns to the shared [err];
    slot 0 is nil and slot 1 holds the comparer of b.  On the same input
    main.go's CheckForUpdates panics with the error of c. *)
Theorem CheckForUpdates_loses_an_earlier_failure :
  (exists rc w',
      Part000.CheckForUpdates example_search example_yaml (in_order 2)
                              failing_manager empty_world
      = Some ({| um_Helmfile := um_Helmfile failing_manager;
                 Comparisons := [None; Some rc] |}, None, w')
      /\ Name (Current rc) = "b")
  /\ (exists e w',
         Part000.CheckForUpdates example_search example_yaml [1; 1; 1; 0; 0; 0]
                                 failing_manager empty_world
         = Some ({| um_Helmfile := um_Helmfile failing_manager;
                    Comparisons := [None; Some
                      {| Current := {| Name := "b"; Chart := "./local/b";
                                       Version := "2.0.0"; Installed := Some 0 |};
                         Latest := {| Name := "b"; Chart := "./local/b";
                                      Version := "2.0.0"; Installed := Some 0 |} |}] |},
                 Some e, w'))
  /\ (exists w',
         Main.CheckForUpdates example_search example_yaml (in_order 2)
                              failing_manager empty_world
         = Some (Panic (PanicError
                          (wrapError "failed to search for chart repoC/c: exit status 1"
                                     (errorString "exit status 1"))), w')).
Proof.
  split; [|split].
  - eexists _, _. split; vm_compute; reflexivity.
  - eexists _, _. vm_compute; reflexivity.
  - eexists. vm_compute; reflexivity.
Qed.

(** ** Semver precedence *)

Lemma string_compare_Lt (s t : string) : String.compare s t = Lt <-> string_lt s t.
Proof.
  revert t. induction s as [|c s IH]; intros [|d t]; simpl.
  - split; [discriminate|inversion 1].
  - split; [constructor|reflexivity].
  - split; [discriminate|inversion 1].
  - destruct (Ascii.compare c d) eqn:Hcd.
    + apply Ascii.compare_eq_iff in Hcd. subst d. rewrite IH. split.
      * now constructor.
      * inversion 1; subst; [lia|assumption].
    + split; [intros _|reflexivity]. now apply string_lt_head, N.compare_lt_iff.
    + split; [discriminate|]. unfold Ascii.compare in Hcd. apply N.compare_gt_iff in Hcd.
      inversion 1; subst; [lia|lia].
Qed.

Lemma string_compare_refl (s : string) : String.compare s s = Eq.
Proof.
  induction s as [|c s IH]; simpl; [reflexivity|].
  unfold Ascii.compare. now rewrite N.compare_refl.
Qed.

Lemma comparePrePart_Lt (s o : string) : semver.comparePrePart s o = Lt <-> ident_lt s o.
Proof.
  unfold semver.comparePrePart.
  destruct (semver.is_numeric s) eqn:Hs, (semver.is_numeric o) eqn:Ho.
  - rewrite N.compare_lt_iff. split; [now constructor|].
    inversion 1; congruence.
  - split; [intros _; now apply ident_lt_mixed|reflexivity].
  - split; [discriminate|]. inversion 1; congruence.
  - rewrite string_compare_Lt. split; [now apply ident_lt_alpha|].
    inversion 1; congruence.
Qed.

Lemma comparePrePart_Eq (s o : string) : semver.comparePrePart s o = Eq <-> ident_eq s o.
Proof.
  unfold semver.comparePrePart.
  destruct (semver.is_numeric s) eqn:Hs, (semver.is_numeric o) eqn:Ho.
  - rewrite N.compare_eq_iff. split; [now constructor|]. inversion 1; congruence.
  - split; [discriminate|]. inversion 1; congruence.
  - split; [discriminate|]. inversion 1; congruence.
  - split.
    + intros ->%String.compare_eq_iff. now constructor.
    + inversion 1; subst; [congruence|apply string_compare_refl].
Qed.

Lemma compareParts_Lt (ss os : list string) :
  semver.compareParts ss os = Lt <-> parts_lt ss os.
Proof.
  revert os. induction ss as [|s ss IH]; intros [|o os]; simpl.
  - split; [discriminate|inversion 1].
  - split; [constructor|reflexivity].
  - split; [discriminate|inversion 1].
  - destruct (semver.comparePrePart s o) eqn:Hso.
    + rewrite IH. apply comparePrePart_Eq in Hso as Heq. split.
      * now apply parts_lt_tail.
      * inversion 1 as [|? ? ? ? Hlt|]; subst; [|assumption].
        apply comparePrePart_Lt in Hlt. congruence.
    + split; [intros _|reflexivity]. now apply parts_lt_head, comparePrePart_Lt.
    + split; [discriminate|].
      inversion 1 as [|? ? ? ? Hlt|? ? ? ? Heq]; subst.
      * apply comparePrePart_Lt in Hlt. congruence.
      * apply comparePrePart_Eq in Heq. congruence.
Qed.

(** [semver.LessThan] is the precedence of the standard. *)
Lemma LessThan_precedes (v o : semver.Version) :
  semver.LessThan v o = true <-> precedes v o.
Proof.
  unfold semver.LessThan, semver.Compare, precedes, pre_precedes.
  destruct (N.compare_spec (semver.major v) (semver.major o)) as [Hma|Hma|Hma];
    [|split; [auto|reflexivity]|split; [discriminate|lia]].
  destruct (N.compare_spec (semver.minor v) (semver.minor o)) as [Hmi|Hmi|Hmi];
    [|split; [auto|reflexivity]|split; [discriminate|lia]].
  destruct (N.compare_spec (semver.patch v) (semver.patch o)) as [Hpa|Hpa|Hpa];
    [|split; [auto 8|reflexivity]|split; [discriminate|lia]].
  destruct (String.eqb_spec (semver.pre v) "") as [Hv|Hv],
           (String.eqb_spec (semver.pre o) "") as [Ho|Ho].
  - split; [discriminate|]. intros [?|[_ [?|[_ [?|[_ [? _]]]]]]]; [lia..|congruence].
  - split; [discriminate|]. intros [?|[_ [?|[_ [?|[_ [? _]]]]]]]; [lia..|congruence].
  - split; [intros _|reflexivity]. right. split; [done|]. right. split; [done|].
    right. split; [done|]. split; [done|]. now left.
  - unfold semver.comparePrerelease.
    destruct (semver.compareParts _ _) eqn:Hc.
    + split; [discriminate|].
      intros [?|[_ [?|[_ [?|[_ [_ [?|Hlt]]]]]]]]; [lia..|congruence|].
      apply compareParts_Lt in Hlt. congruence.
    + apply compareParts_Lt in Hc. split; [intros _|reflexivity].
      right. split; [done|]. right. split; [done|]. right. split; [done|]. split; auto.
    + split; [discriminate|].
      intros [?|[_ [?|[_ [?|[_ [_ [?|Hlt]]]]]]]]; [lia..|congruence|].
      apply compareParts_Lt in Hlt. congruence.
Qed.

(** The build metadata plays no part in the comparison. *)
Lemma Compare_ignores_metadata (v o : semver.Version) (m m' : string) :
  semver.Compare
    {| semver.major := semver.major v; semver.minor := semver.minor v;
       semver.patch := semver.patch v; semver.pre := semver.pre v;
       semver.metadata := m |}
    {| semver.major := semver.major o; semver.minor := semver.minor o;
       semver.patch := semver.patch o; semver.pre := semver.pre o;
       semver.metadata := m' |}
  = semver.Compare v o.
Proof. reflexivity. Qed.

(** *** The precedence is a strict order, total up to equal precedence *)

Lemma order_like_right {A} (cmp : A -> A -> comparison) :
  order_like cmp -> forall a b c, cmp b c = Eq -> cmp a b = cmp a c.
Proof.
  intros [Hanti Heq _] a b c Hbc.
  rewrite (Hanti a b), (Hanti a c). f_equal. symmetry. apply Heq.
  rewrite Hanti, Hbc. reflexivity.
Qed.

Lemma order_like_lex2 {A B} (cmp1 : A -> A -> comparison) (cmp2 : B -> B -> comparison) :
  order_like cmp1 -> order_like cmp2 -> order_like (lex2 cmp1 cmp2).
Proof.
  intros H1 H2. pose proof (order_like_right cmp1 H1) as Hr1.
  destruct H1 as [Hanti1 Heq1 Htr1], H2 as [Hanti2 Heq2 Htr2].
  split; unfold lex2.
  - intros [a1 a2] [b1 b2]; simpl. rewrite (Hanti1 a1 b1).
    destruct (cmp1 b1 a1); simpl; auto.
  - intros [a1 a2] [b1 b2] [c1 c2]; simpl.
    destruct (cmp1 a1 b1) eqn:Hab; try discriminate.
    intros Hab2. rewrite (Heq1 a1 b1 c1 Hab), (Heq2 a2 b2 c2 Hab2). reflexivity.
  - intros [a1 a2] [b1 b2] [c1 c2]; simpl.
    destruct (cmp1 a1 b1) eqn:Hab; try discriminate;
      destruct (cmp1 b1 c1) eqn:Hbc; try discriminate; intros Hab2 Hbc2.
    + rewrite (Heq1 a1 b1 c1 Hab), Hbc. eauto.
    + now rewrite (Heq1 a1 b1 c1 Hab), Hbc.
    + now rewrite <- (Hr1 a1 b1 c1 Hbc), Hab.
    + now rewrite (Htr1 a1 b1 c1 Hab Hbc).
Qed.

Lemma order_like_on {A B} (f : A -> B) (cmp : B -> B -> comparison) :
  order_like cmp -> order_like (fun a b => cmp (f a) (f b)).
Proof. intros [Hanti Heq Htr]. split; eauto. Qed.

Lemma order_like_N : order_like N.compare.
Proof.
  split.
  - intros a b. apply N.compare_antisym.
  - now intros a b c ->%N.compare_eq_iff.
  - intros a b c. rewrite !N.compare_lt_iff. lia.
Qed.

Lemma string_lt_trans (a b c : string) : string_lt a b -> string_lt b c -> string_lt a c.
Proof.
  intros Hab. revert c. induction Hab as [d s|d d' s t Hd|d s t Hst IH]; intros c Hbc.
  - inversion Hbc; constructor.
  - inversion Hbc; subst; [apply string_lt_head; lia|now apply string_lt_head].
  - inversion Hbc; subst; [now apply string_lt_head|apply string_lt_tail; auto].
Qed.

Lemma order_like_string : order_like String.compare.
Proof.
  split.
  - apply String.compare_antisym.
  - now intros a b c ->%String.compare_eq_iff.
  - intros a b c. rewrite !string_compare_Lt. apply string_lt_trans.
Qed.

Lemma order_like_comparePrePart : order_like semver.comparePrePart.
Proof.
  destruct order_like_N as [HantiN HeqN HtrN].
  destruct order_like_string as [HantiS HeqS HtrS].
  split; unfold semver.comparePrePart.
  - intros a b. destruct (semver.is_numeric a), (semver.is_numeric b); auto.
  - intros a b c.
    destruct (semver.is_numeric a) eqn:Ha, (semver.is_numeric b) eqn:Hb;
      try discriminate; intros Hab.
    + destruct (semver.is_numeric c); auto.
    + apply String.compare_eq_iff in Hab. subst b. reflexivity.
  - intros a b c.
    destruct (semver.is_numeric a), (semver.is_numeric b), (semver.is_numeric c);
      try discriminate; eauto.
Qed.

Lemma order_like_compareParts : order_like semver.compareParts.
Proof.
  pose proof (order_like_right _ order_like_comparePrePart) as Hr.
  destruct order_like_comparePrePart as [Hanti Heq Htr].
  split.
  - induction a as [|x a IH]; intros [|y b]; simpl; auto.
    rewrite (Hanti x y). destruct (semver.comparePrePart y x); simpl; auto.
  - induction a as [|x a IH]; intros [|y b] c; simpl; try discriminate; auto.
    destruct (semver.comparePrePart x y) eqn:Hxy; try discriminate.
    intros Hab. destruct c as [|z c]; [reflexivity|].
    rewrite (Heq x y z Hxy). destruct (semver.comparePrePart y z); auto.
  - induction a as [|x a IH]; intros [|y b] [|z c]; simpl; try discriminate; auto.
    destruct (semver.comparePrePart x y) eqn:Hxy; try discriminate;
      destruct (semver.comparePrePart y z) eqn:Hyz; try discriminate; intros Hab Hbc.
    + rewrite (Heq x y z Hxy), Hyz. eauto.
    + now rewrite (Heq x y z Hxy), Hyz.
    + now rewrite <- (Hr x y z Hyz), Hxy.
    + now rewrite (Htr x y z Hxy Hyz).
Qed.

Lemma order_like_compare_pre : order_like compare_pre.
Proof.
  destruct (order_like_on (semver.Split semver.dot) _ order_like_compareParts)
    as [Hanti Heq Htr].
  split; unfold compare_pre, semver.comparePrerelease.
  - intros a b. destruct (a =? "")%string, (b =? "")%string; auto.
  - intros a b c.
    destruct (String.eqb_spec a "") as [->|Ha], (String.eqb_spec b "") as [->|Hb];
      try discriminate; auto.
    intros Hab. destruct (c =? "")%string; auto.
  - intros a b c.
    destruct (a =? "")%string, (b =? "")%string, (c =? "")%string;
      try discriminate; eauto.
Qed.

Lemma Compare_lex (v o : semver.Version) :
  semver.Compare v o
  = lex2 N.compare (lex2 N.compare (lex2 N.compare compare_pre))
         (precedence_key v) (precedence_key o).
Proof. reflexivity. Qed.

Lemma order_like_Compare : order_like semver.Compare.
Proof.
  pose proof (order_like_on precedence_key _
                (order_like_lex2 _ _ order_like_N
                   (order_like_lex2 _ _ order_like_N
                      (order_like_lex2 _ _ order_like_N order_like_compare_pre))))
    as [Hanti Heq Htr].
  split; intros; rewrite !Compare_lex in *; eauto.
Qed.

Lemma precedes_irrefl (v : semver.Version) : ~ precedes v v.
Proof.
  rewrite <- LessThan_precedes. unfold semver.LessThan.
  pose proof (cmp_antisym _ order_like_Compare v v) as H.
  destruct (semver.Compare v v); simpl in H; congruence.
Qed.

Lemma precedes_trans (v o u : semver.Version) :
  precedes v o -> precedes o u -> precedes v u.
Proof.
  rewrite <- !LessThan_precedes. unfold semver.LessThan.
  pose proof (cmp_trans _ order_like_Compare v o u) as H.
  destruct (semver.Compare v o), (semver.Compare o u); try discriminate.
  now rewrite H.
Qed.

Lemma precedes_asym (v o : semver.Version) : precedes v o -> ~ precedes o v.
Proof. intros Hvo Hov. exact (precedes_irrefl v (precedes_trans v o v Hvo Hov)). Qed.

(** Two versions are ordered one way or the other unless [semver.Compare]
    finds them equal, which takes the same major, minor and patch. *)
Lemma precedes_total (v o : semver.Version) :
  precedes v o \/ precedes o v
  \/ (semver.Compare v o = Eq
      /\ semver.major v = semver.major o /\ semver.minor v = semver.minor o
      /\ semver.patch v = semver.patch o).
Proof.
  rewrite <- !LessThan_precedes. unfold semver.LessThan.
  rewrite (cmp_antisym _ order_like_Compare o v).
  destruct (semver.Compare v o) eqn:Hc; simpl; auto.
  right; right. split; [reflexivity|].
  unfold semver.Compare in Hc.
  destruct (N.compare_spec (semver.major v) (semver.major o)); try discriminate.
  destruct (N.compare_spec (semver.minor v) (semver.minor o)); try discriminate.
  destruct (N.compare_spec (semver.patch v) (semver.patch o)); try discriminate.
  auto.
Qed.

(** C6. When the stripped versions differ and both parse, HasUpdate returns,
    in main.go as in part_000, true exactly when the current version precedes
    the latest one in the semver order: major, then minor, then patch, then
    pre-release precedence.  Versions that agree on those four fields are
    interchangeable: the build metadata is not looked at. *)
Theorem HasUpdate_is_semver_precedence
        (NewVersion : string -> result semver.Version)
        (rc : ReleaseComparer) (vc vl : semver.Version) :
  strip_v (Version (Current rc)) <> strip_v (Version (Latest rc)) ->
  NewVersion (strip_v (Version (Current rc))) = Ok vc ->
  NewVersion (strip_v (Version (Latest rc))) = Ok vl ->
  (exists b, Part000.HasUpdate NewVersion rc = (b, [])
             /\ Main.HasUpdate NewVersion rc = Ret b
             /\ (b = true <-> precedes vc vl))
  /\ (forall vc' vl',
         precedence_key vc' = precedence_key vc ->
         precedence_key vl' = precedence_key vl ->
         semver.LessThan vc' vl' = semver.LessThan vc vl).
Proof.
  intros Hne Hc Hl. split.
  - exists (semver.LessThan vc vl).
    destruct (HasUpdate_parsed NewVersion rc vc vl Hne Hc Hl) as [-> ->].
    split; [reflexivity|]. split; [reflexivity|]. apply LessThan_precedes.
  - intros vc' vl' Hkc Hkl. unfold semver.LessThan.
    now rewrite !Compare_lex, Hkc, Hkl.
Qed.

Lemma HasUpdate_is_semver_precedence_witness :
  Part000.HasUpdate semver.NewVersion (versions "app" "v1.2.0" "1.3.0") = (true, [])
  /\ Main.HasUpdate semver.NewVersion (versions "app" "v1.2.0" "1.3.0") = Ret true.
Proof.
  destruct (HasUpdate_is_semver_precedence
              semver.NewVersion (versions "app" "v1.2.0" "1.3.0")
              {| semver.major := 1; semver.minor := 2; semver.patch := 0;
                 semver.pre := ""; semver.metadata := "" |}
              {| semver.major := 1; semver.minor := 3; semver.patch := 0;
                 semver.pre := ""; semver.metadata := "" |})
    as [(b & Hp & Hm & Hb) _].
  - vm_compute. discriminate.
  - reflexivity.
  - reflexivity.
  - assert (Htrue : b = true).
    { apply Hb, LessThan_precedes. reflexivity. }
    rewrite Hp, Hm, Htrue. split; reflexivity.
Defined.

(** The comparator on the version pairs the specification lists, with the
    parser of [semver]. *)
Lemma HasUpdate_examples :
  let hasNewer current latest :=
    (Part000.HasUpdate semver.NewVersion (versions "app" current latest)).1 in
  hasNewer "v1.2.0" "1.3.0" = true
  /\ hasNewer "1.3.0" "v1.2.0" = false
  /\ hasNewer "latest" "latest" = false
  /\ hasNewer "not-a-version" "1.0.0" = false
  /\ hasNewer "1.0.0-rc.1" "1.0.0" = true
  /\ hasNewer "1.0.0-alpha.9" "1.0.0-alpha.10" = true
  /\ hasNewer "1.0.0-alpha.1" "1.0.0-alpha.beta" = true
  /\ hasNewer "1.0.0+build.1" "1.0.0+build.2" = false
  /\ hasNewer "1.9.0" "1.10.0" = true.
Proof. repeat split. Qed.

Lemma GetReleaseComparer_preserves_name_witness :
  exists rc w',
    GetReleaseComparer example_search example_yaml (declared "a" "repoA/a" "1.0.0")
                       empty_world = (Ok rc, w')
    /\ Name (Current rc) = Name (Latest rc)
    /\ Version (Latest rc) = "1.1.0".
Proof.
  eexists _, _. split; [vm_compute; reflexivity|].
  split; [|reflexivity].
  apply (GetReleaseComparer_preserves_name
           example_search example_yaml (declared "a" "repoA/a" "1.0.0")
           empty_world _ _ eq_refl).
Defined.

(** ** The error part_000's CheckForUpdates returns *)

Section Part000Error.

Variable helm_search_repo : string -> result string.
Variable yaml_Unmarshal : string -> result (list HelmChartInfo.t).

Local Abbreviation lookup := (GetReleaseComparer helm_search_repo yaml_Unmarshal).
Local Abbreviation step := (Part000.step helm_search_repo yaml_Unmarshal).
Local Abbreviation run := (Part000.run helm_search_repo yaml_Unmarshal).

(** The three statements of a goroutine, run back to back, leave in the
    shared [err] the outcome of that goroutine's lookup and nothing else. *)
Lemma three_turns_err (st : Part000.state) (k : nat) (t : Part000.task) :
  Part000.st_tasks st !! k = Some t ->
  Part000.t_pc t = Part000.AtLookup ->
  Part000.st_err (step (step (step st k) k) k)
  = match error_of (lookup (Part000.t_release t) (Part000.st_world st)).1 with
    | None => None
    | Some err =>
        Some (joinError
                [err;
                 errorString ("failed to get release comparer for release "
                              +:+ Name (Part000.t_release t) +:+ ": " +:+ Error err)])
    end.
Proof.
  intros Hk Hpc.
  assert (Hlt : k < length (Part000.st_tasks st)) by (eapply lookup_lt_Some; eauto).
  unfold Part000.step at 3. rewrite Hk, Hpc.
  destruct (lookup (Part000.t_release t) (Part000.st_world st)) as [r w'].
  unfold Part000.step at 2, Part000.set_task. cbn [Part000.st_tasks Part000.t_release].
  rewrite list_lookup_insert_eq by exact Hlt.
  cbn [Part000.t_pc Part000.st_err Part000.st_world Part000.st_comparisons
       Part000.t_release fst].
  unfold Part000.step, Part000.set_task. cbn [Part000.st_tasks Part000.t_release].
  rewrite list_lookup_insert_eq by (rewrite length_insert; exact Hlt).
  cbn [Part000.t_pc Part000.st_err].
  destruct (error_of r); reflexivity.
Qed.

Lemma in_order_S (n : nat) : in_order (S n) = in_order n ++ [n; n; n].
Proof.
  unfold in_order. rewrite seq_S, flat_map_app. simpl. reflexivity.
Qed.

Lemma count_occ_in_order_ge (n i : nat) :
  n <= i -> count_occ Nat.eq_dec (in_order n) i = 0.
Proof.
  intros Hi. induction n as [|n IH]; [reflexivity|].
  rewrite in_order_S, count_occ_app, IH by lia. simpl.
  destruct (Nat.eq_dec n i); [lia|reflexivity].
Qed.

(** With the goroutines run one after the other, the error that
    CheckForUpdates returns is nil exactly when the lookup of the last
    release succeeds: the failures of the releases before it are lost. *)
Lemma CheckForUpdates_in_order_reports_last_only
      (um um' : UpdateManager) (w w' : world) (e : option error)
      (before : list Release) (release : Release) :
  Releases (um_Helmfile um) = before ++ [release] ->
  Part000.CheckForUpdates helm_search_repo yaml_Unmarshal
    (in_order (length (before ++ [release]))) um w = Some (um', e, w') ->
  (e = None <-> error_of (lookup release w).1 = None).
Proof.
  intros Hrel. unfold Part000.CheckForUpdates.
  destruct (forallb _ _); [|discriminate]. intros [= _ <- _].
  rewrite length_app, Nat.add_comm. cbn [length Nat.add].
  rewrite in_order_S. unfold Part000.run. rewrite foldl_app. cbn [foldl].
  fold (run (in_order (length before)) (Part000.start um w)).
  set (st := run (in_order (length before)) (Part000.start um w)).
  destruct (Inv_run helm_search_repo yaml_Unmarshal um w (in_order (length before)))
    as [_ Htasks _ _ _].
  fold st in Htasks. specialize (Htasks (length before)).
  rewrite Hrel, lookup_app_r, Nat.sub_diag in Htasks by lia. simpl in Htasks.
  destruct (Part000.st_tasks st !! length before) as [t|] eqn:Ht; [|discriminate].
  injection Htasks as Hrt.
  assert (Hpc : Part000.t_pc t = Part000.AtLookup).
  { pose proof (progress_run helm_search_repo yaml_Unmarshal (in_order (length before))
                  (Part000.start um w) (length before)) as Hp.
    fold st in Hp. rewrite progress_start, Hrel, length_app in Hp.
    rewrite count_occ_in_order_ge in Hp by lia.
    rewrite decide_True in Hp by (simpl; lia).
    unfold progress in Hp. rewrite Ht in Hp. now destruct (Part000.t_pc t). }
  rewrite (three_turns_err st _ t Ht Hpc), Hrt.
  rewrite (GetReleaseComparer_error helm_search_repo yaml_Unmarshal release
             (Part000.st_world st) w).
  destruct (error_of (lookup release w).1); split; congruence.
Qed.

End Part000Error.

(** ** getColumnPaddings *)

Lemma paddings_loop_gap_free (cs : list ReleaseComparer) (n0 v0 : nat) :
  exists n v,
    paddings_loop (map Some cs) n0 v0 = Ret (n, v)
    /\ n0 <= n /\ v0 <= v
    /\ (forall c, In c cs ->
                  String.length (Name (Current c)) <= n
                  /\ String.length (Version (Current c)) <= v)
    /\ (n = n0 \/ exists c, In c cs /\ n = String.length (Name (Current c)))
    /\ (v = v0 \/ exists c, In c cs /\ v = String.length (Version (Current c))).
Proof.
  revert n0 v0. induction cs as [|c cs IH]; intros n0 v0.
  - exists n0, v0. simpl. split; [reflexivity|]. split; [lia|]. split; [lia|].
    split; [intros c0 []|]. split; now left.
  - cbn [map paddings_loop]. unfold ReleaseComparer_Name.
    set (n1 := if (n0 <? String.length (Name (Current c)))%nat
               then String.length (Name (Current c)) else n0).
    set (v1 := if (v0 <? String.length (Version (Current c)))%nat
               then String.length (Version (Current c)) else v0).
    assert (Hn1 : n0 <= n1 /\ String.length (Name (Current c)) <= n1
                  /\ (n1 = n0 \/ n1 = String.length (Name (Current c)))).
    { subst n1. destruct (Nat.ltb_spec n0 (String.length (Name (Current c)))); lia. }
    assert (Hv1 : v0 <= v1 /\ String.length (Version (Current c)) <= v1
                  /\ (v1 = v0 \/ v1 = String.length (Version (Current c)))).
    { subst v1. destruct (Nat.ltb_spec v0 (String.length (Version (Current c)))); lia. }
    destruct (IH n1 v1) as (n & v & Heq & Hn & Hv & Hall & Hnt & Hvt).
    exists n, v. split; [exact Heq|]. split; [lia|]. split; [lia|]. split; [|split].
    + intros c' [Hc|Hin]; [subst c'; lia|now apply Hall].
    + destruct Hnt as [Hnt|(c' & Hin & Hnt)].
      * destruct Hn1 as (_ & _ & [Hn1|Hn1]); [left; lia|].
        right. exists c. split; [now left|lia].
      * right. exists c'. split; [now right|exact Hnt].
    + destruct Hvt as [Hvt|(c' & Hin & Hvt)].
      * destruct Hv1 as (_ & _ & [Hv1|Hv1]); [left; lia|].
        right. exists c. split; [now left|lia].
      * right. exists c'. split; [now right|exact Hvt].
Qed.

Lemma getColumnPaddings_gap_free (cs : list ReleaseComparer) :
  exists n v,
    getColumnPaddings (map Some cs) = Ret (n, v)
    /\ (forall c, In c cs ->
                  String.length (Name (Current c)) < n
                  /\ String.length (Version (Current c)) < v)
    /\ (n = 1 \/ exists c, In c cs /\ n = String.length (Name (Current c)) + 1)
    /\ (v = 1 \/ exists c, In c cs /\ v = String.length (Version (Current c)) + 1).
Proof.
  unfold getColumnPaddings.
  destruct (paddings_loop_gap_free cs 0 0) as (n & v & -> & _ & _ & Hall & Hn & Hv).
  exists (n + 1), (v + 1). split; [reflexivity|]. split.
  - intros c Hin. destruct (Hall c Hin). lia.
  - split.
    + destruct Hn as [->|(c & Hin & ->)]; [now left|right; eauto].
    + destruct Hv as [->|(c & Hin & ->)]; [now left|right; eauto].
Qed.

(** X1. The paddings of a set without nil entries are one more than the
    longest release name and one more than the longest current version: each
    is above every length of its column and is reached by some comparer, or
    is 1 when its column has only empty strings. *)
Theorem getColumnPaddings_bounds (cs : list ReleaseComparer) :
  exists n v,
    getColumnPaddings (map Some cs) = Ret (n, v)
    /\ (forall c, In c cs ->
                  String.length (Name (Current c)) < n
                  /\ String.length (Version (Current c)) < v)
    /\ (n = 1 \/ exists c, In c cs /\ n = String.length (Name (Current c)) + 1)
    /\ (v = 1 \/ exists c, In c cs /\ v = String.length (Version (Current c)) + 1).
Proof. apply getColumnPaddings_gap_free. Qed.

Lemma paddings_loop_gap (cs : list (option ReleaseComparer)) (n0 v0 : nat) :
  In None cs -> paddings_loop cs n0 v0 = Panic NilDereference.
Proof.
  revert n0 v0. induction cs as [|[c|] cs IH]; intros n0 v0; simpl.
  - intros [].
  - intros [[=]|Hin]. now apply IH.
  - reflexivity.
Qed.

(** A set has a nil entry or is the image of a list of comparers. *)
Lemma gap_or_gap_free (cs : list (option ReleaseComparer)) :
  In None cs \/ exists cs', cs = map Some cs'.
Proof.
  induction cs as [|[c|] cs [Hin|[cs' ->]]]; simpl; auto.
  - right. now exists [].
  - right. now exists (c :: cs').
Qed.

Lemma map_Some_gap_free (cs : list ReleaseComparer) : ~ In None (map Some cs).
Proof. induction cs as [|c cs IH]; simpl; [tauto|]. intros [[=]|Hin]. tauto. Qed.

Lemma getColumnPaddings_gap (cs : list (option ReleaseComparer)) :
  In None cs -> getColumnPaddings cs = Panic NilDereference.
Proof. intros Hin. unfold getColumnPaddings. now rewrite paddings_loop_gap. Qed.

(** X2. getColumnPaddings panics, with the nil dereference, exactly on the
    sets that have a nil entry, wherever it sits; on the others it returns. *)
Theorem getColumnPaddings_panics_iff_gap (cs : list (option ReleaseComparer)) :
  (getColumnPaddings cs = Panic NilDereference <-> In None cs)
  /\ (forall p, getColumnPaddings cs = Panic p -> In None cs /\ p = NilDereference).
Proof.
  destruct (gap_or_gap_free cs) as [Hin|[cs' ->]].
  - rewrite (getColumnPaddings_gap cs Hin). split; [tauto|].
    intros p [= <-]. auto.
  - destruct (getColumnPaddings_gap_free cs') as (n & v & -> & _). split.
    + split; [discriminate|]. intros Hin. now apply map_Some_gap_free in Hin.
    + discriminate.
Qed.

Lemma paddings_loop_Permutation (cs cs' : list (option ReleaseComparer)) :
  Permutation cs cs' ->
  forall n0 v0, paddings_loop cs n0 v0 = paddings_loop cs' n0 v0.
Proof.
  induction 1 as [|x l l' _ IH|x y l|l l' l'' _ IH1 _ IH2]; intros n0 v0.
  - reflexivity.
  - destruct x as [c|]; simpl; [apply IH|reflexivity].
  - destruct x as [c|], y as [c'|]; simpl; try reflexivity.
    f_equal.
    + destruct (Nat.ltb_spec n0 (String.length (ReleaseComparer_Name c'))),
               (Nat.ltb_spec n0 (String.length (ReleaseComparer_Name c)));
        repeat match goal with
               | |- context [(?a <? ?b)%nat] => destruct (Nat.ltb_spec a b)
               end; lia.
    + destruct (Nat.ltb_spec v0 (String.length (Version (Current c')))),
               (Nat.ltb_spec v0 (String.length (Version (Current c))));
        repeat match goal with
               | |- context [(?a <? ?b)%nat] => destruct (Nat.ltb_spec a b)
               end; lia.
  - now rewrite IH1, IH2.
Qed.

(** X3. The paddings do not depend on the order of the set: two sets with
    the same entries, nil ones included, get the same paddings or the same
    panic. *)
Theorem getColumnPaddings_Permutation (cs cs' : list (option ReleaseComparer)) :
  Permutation cs cs' -> getColumnPaddings cs = getColumnPaddings cs'.
Proof.
  intros Hperm. unfold getColumnPaddings.
  now rewrite (paddings_loop_Permutation cs cs' Hperm).
Qed.

Lemma getColumnPaddings_Permutation_witness :
  getColumnPaddings [Some (versions "web" "1.0.0" "1.1.0");
                     Some (versions "database" "10.12.1" "10.12.1")]
  = getColumnPaddings [Some (versions "database" "10.12.1" "10.12.1");
                       Some (versions "web" "1.0.0" "1.1.0")].
Proof.
  apply getColumnPaddings_Permutation. apply perm_swap.
Defined.

(** ** The report *)

Lemma stdout_of_app (a b : list event) : stdout_of (a ++ b) = stdout_of a ++ stdout_of b.
Proof. apply omap_app. Qed.

Lemma stdout_of_Stderr (logged : list string) : stdout_of (map Stderr logged) = [].
Proof. induction logged as [|l logged IH]; simpl; auto. Qed.




Section ReportFacts.

Variable NewVersion : string -> result semver.Version.
Variable RuneCountInString : string -> nat.

Local Abbreviation upd := (fun c => (Part000.HasUpdate NewVersion c).1).
Local Abbreviation report := (Part000Program.report NewVersion RuneCountInString).
Local Abbreviation rows := (Part000Program.rows NewVersion RuneCountInString).

(** *** part_000 *)

(** HasUpdates of part_000 answers false only on sets without nil entry,
    and panics only with the nil dereference. *)
Lemma Part000_HasUpdates_false_no_gap (cs : list (option ReleaseComparer)) :
  ((Part000.HasUpdates NewVersion cs).1 = Ret false -> ~ In None cs)
  /\ (forall p, (Part000.HasUpdates NewVersion cs).1 = Panic p ->
                p = NilDereference /\ In None cs).
Proof.
  induction cs as [|[c|] cs [IH1 IH2]]; simpl.
  - split; [tauto|discriminate].
  - destruct (Part000.HasUpdate NewVersion c) as [[] out].
    + split; discriminate.
    + destruct (Part000.HasUpdates NewVersion cs) as [r out']. simpl in *. split.
      * intros Hr [[=]|Hin]. now apply IH1.
      * intros p Hp. destruct (IH2 p Hp). auto.
  - split; [discriminate|]. intros p [= <-]. auto.
Qed.

(** What the loop over the rows prints for a set without nil entries, when
    [shown] says which rows the flag lets through. *)
Lemma Part000_rows_gap_free (flagStatus : string) (shown : ReleaseComparer -> bool)
      (n v : nat) (cs : list ReleaseComparer) :
  (forall c,
      shown c = if (flagStatus =? "all")%string then true
                else if (flagStatus =? "outdated")%string then upd c
                     else if (flagStatus =? "latest")%string then negb (upd c)
                          else false) ->
  (rows flagStatus n v (map Some cs)).2 = Returned
  /\ stdout_of (rows flagStatus n v (map Some cs)).1
     = map (fun c => row_text RuneCountInString n v c
                       (if upd c then Part000Program.status_outdated
                        else Part000Program.status_latest))
           (List.filter shown cs).
Proof.
  intros Hshown. induction cs as [|c cs [IHex IHout]]; [split; reflexivity|].
  cbn [map Part000Program.rows List.filter]. rewrite (Hshown c).
  destruct (Part000.HasUpdate NewVersion c) as [b logged] eqn:Hc. cbn [fst].
  destruct (rows flagStatus n v (map Some cs)) as [out ex]. cbn [fst snd] in *.
  split; [exact IHex|].
  rewrite !stdout_of_app, stdout_of_Stderr, IHout. cbn [app].
  destruct (flagStatus =? "all")%string.
  { cbn [map]. rewrite Hc. reflexivity. }
  destruct (flagStatus =? "outdated")%string.
  { rewrite stdout_of_app, stdout_of_Stderr. destruct b; cbn [negb map app]; rewrite ?Hc; reflexivity. }
  destruct (flagStatus =? "latest")%string.
  { rewrite stdout_of_app, stdout_of_Stderr. destruct b; cbn [negb map app]; rewrite ?Hc; reflexivity. }
  reflexivity.
Qed.

(** The report of a set without nil entries in which some comparer has an
    update: it returns, after a blank line, the header and the rows that the
    flag lets through. *)
Lemma Part000_report_table (flagStatus : string) (shown : ReleaseComparer -> bool)
      (cs : list ReleaseComparer) (n v : nat) :
  (exists c, In c cs /\ upd c = true) ->
  getColumnPaddings (map Some cs) = Ret (n, v) ->
  (forall c,
      shown c = if (flagStatus =? "all")%string then true
                else if (flagStatus =? "outdated")%string then upd c
                     else if (flagStatus =? "latest")%string then negb (upd c)
                          else false) ->
  (report flagStatus (map Some cs)).2 = Returned
  /\ stdout_of (report flagStatus (map Some cs)).1
     = EmptyString :: header_text RuneCountInString n v
       :: map (fun c => row_text RuneCountInString n v c
                          (if upd c then Part000Program.status_outdated
                           else Part000Program.status_latest))
              (List.filter shown cs).
Proof.
  intros Hupd Hpad Hshown. unfold Part000Program.report.
  destruct (Part000_HasUpdates_no_gap NewVersion cs) as (b & Hb & Hiff).
  destruct (Part000.HasUpdates NewVersion (map Some cs)) as [r logged].
  cbn [fst] in Hb. subst r.
  assert (Htrue : b = true) by now apply Hiff. subst b.
  rewrite Hpad.
  destruct (Part000_rows_gap_free flagStatus shown n v cs Hshown) as [Hex Hout].
  destruct (rows flagStatus n v (map Some cs)) as [out ex]. cbn [fst snd] in *.
  split; [exact Hex|].
  rewrite !stdout_of_app, stdout_of_Stderr, Hout. reflexivity.
Qed.

End ReportFacts.

(** X4. In part_000, over a set without nil entries in which some release
    has an update, the report returns and prints a blank line, the header and
    then: under "all" one row a release, in the order of the set; under
    "outdated" the rows of the releases with an update; under "latest" the
    rows of the others; under any other value of the flag no row at all. *)
Theorem report_filters_rows
        (NewVersion : string -> result semver.Version)
        (RuneCountInString : string -> nat) (cs : list ReleaseComparer) :
  (exists c, In c cs /\ (Part000.HasUpdate NewVersion c).1 = true) ->
  exists n v,
    getColumnPaddings (map Some cs) = Ret (n, v)
    /\ let upd c := (Part000.HasUpdate NewVersion c).1 in
       let row c := row_text RuneCountInString n v c
                      (if upd c then Part000Program.status_outdated
                       else Part000Program.status_latest) in
       let header := header_text RuneCountInString n v in
       let report status :=
         Part000Program.report NewVersion RuneCountInString status (map Some cs) in
       (forall status, (report status).2 = Returned)
       /\ stdout_of (report "all").1 = EmptyString :: header :: map row cs
       /\ stdout_of (report "outdated").1
          = EmptyString :: header :: map row (List.filter upd cs)
       /\ stdout_of (report "latest").1
          = EmptyString :: header :: map row (List.filter (fun c => negb (upd c)) cs)
       /\ (forall status,
              status <> "all" -> status <> "outdated" -> status <> "latest" ->
              stdout_of (report status).1 = [EmptyString; header]).
Proof.
  intros Hupd.
  destruct (getColumnPaddings_gap_free cs) as (n & v & Hpad & _).
  exists n, v. split; [exact Hpad|]. cbn zeta.
  split; [|split; [|split; [|split]]].
  - intros status.
    apply (Part000_report_table NewVersion RuneCountInString status
             (fun c => if (status =? "all")%string then true
                       else if (status =? "outdated")%string
                            then (Part000.HasUpdate NewVersion c).1
                            else if (status =? "latest")%string
                                 then negb (Part000.HasUpdate NewVersion c).1
                                 else false) cs n v Hupd Hpad).
    reflexivity.
  - destruct (Part000_report_table NewVersion RuneCountInString "all"
                (fun _ => true) cs n v Hupd Hpad) as [_ ->]; [reflexivity|].
    do 3 f_equal. clear. induction cs as [|c cs IH]; simpl; [reflexivity|].
    now rewrite IH.
  - now destruct (Part000_report_table NewVersion RuneCountInString "outdated"
                    (fun c => (Part000.HasUpdate NewVersion c).1) cs n v Hupd Hpad)
      as [_ ->].
  - now destruct (Part000_report_table NewVersion RuneCountInString "latest"
                    (fun c => negb (Part000.HasUpdate NewVersion c).1) cs n v Hupd Hpad)
      as [_ ->].
  - intros status H1 H2 H3.
    apply String.eqb_neq in H1, H2, H3.
    destruct (Part000_report_table NewVersion RuneCountInString status
                (fun _ => false) cs n v Hupd Hpad) as [_ ->].
    + intros c. now rewrite H1, H2, H3.
    + do 2 f_equal. clear. induction cs as [|c cs IH]; simpl; auto.
Qed.

Lemma report_filters_rows_witness :
  exists n v,
    getColumnPaddings [Some (versions "web" "1.0.0" "1.1.0");
                       Some (versions "db" "2.0.0" "2.0.0")] = Ret (n, v)
    /\ stdout_of (Part000Program.report semver.NewVersion String.length "outdated"
                    [Some (versions "web" "1.0.0" "1.1.0");
                     Some (versions "db" "2.0.0" "2.0.0")]).1
       = [EmptyString; header_text String.length n v;
          row_text String.length n v (versions "web" "1.0.0" "1.1.0")
                   Part000Program.status_outdated].
Proof.
  destruct (report_filters_rows semver.NewVersion String.length
              [versions "web" "1.0.0" "1.1.0"; versions "db" "2.0.0" "2.0.0"])
    as (n & v & Hpad & _ & _ & Hout & _).
  - exists (versions "web" "1.0.0" "1.1.0"). split; [now left|reflexivity].
  - exists n, v. split; [exact Hpad|]. exact Hout.
Defined.

Section ReportEdges.

Variable NewVersion : string -> result semver.Version.
Variable RuneCountInString : string -> nat.

Lemma Part000_HasUpdates_all_false (cs : list ReleaseComparer) :
  (forall c, In c cs -> (Part000.HasUpdate NewVersion c).1 = false) ->
  (Part000.HasUpdates NewVersion (map Some cs)).1 = Ret false.
Proof.
  intros Hall.
  destruct (Part000_HasUpdates_no_gap NewVersion cs) as (b & -> & Hiff).
  destruct b; [|reflexivity].
  destruct (proj1 Hiff eq_refl) as (c & Hin & Hc). rewrite (Hall c Hin) in Hc. discriminate.
Qed.

Lemma Main_HasUpdates_all_false (cs : list ReleaseComparer) :
  (forall c, In c cs -> Main.HasUpdate NewVersion c = Ret false) ->
  Main.HasUpdates NewVersion (map Some cs) = Ret false.
Proof.
  induction cs as [|c cs IH]; intros Hall; simpl; [reflexivity|].
  rewrite (Hall c) by now left. apply IH. intros c' Hin. apply Hall. now right.
Qed.

(** main.go's HasUpdates answers false only on sets without nil entry. *)
Lemma Main_HasUpdates_false_no_gap (cs : list (option ReleaseComparer)) :
  Main.HasUpdates NewVersion cs = Ret false ->
  forall o, In o cs -> exists c, o = Some c /\ Main.HasUpdate NewVersion c = Ret false.
Proof.
  induction cs as [|[c|] cs IH]; simpl; [intros _ o []| |discriminate].
  destruct (Main.HasUpdate NewVersion c) as [[]|p] eqn:Hc; try discriminate.
  intros Hcs o [<-|Hin]; [eauto|now apply IH].
Qed.

End ReportEdges.

(** X5. When no release of a set without nil entries has an update, the
    report is the single line that the charts are up to date, whatever the
    status flag asks for: no header and no row, under "latest" and "all"
    too.  In both drafts. *)
Theorem report_up_to_date
        (NewVersion : string -> result semver.Version)
        (RuneCountInString : string -> nat)
        (flagStatus : string) (cs : list ReleaseComparer) :
  ((forall c, In c cs -> (Part000.HasUpdate NewVersion c).1 = false) ->
   (Part000Program.report NewVersion RuneCountInString flagStatus (map Some cs)).2
   = Returned
   /\ stdout_of (Part000Program.report NewVersion RuneCountInString flagStatus
                   (map Some cs)).1
      = [Part000Program.up_to_date])
  /\ ((forall c, In c cs -> Main.HasUpdate NewVersion c = Ret false) ->
      MainProgram.report NewVersion RuneCountInString flagStatus (map Some cs)
      = ([Stdout MainProgram.up_to_date], Returned)).
Proof.
  split.
  - intros Hall. apply Part000_HasUpdates_all_false in Hall.
    unfold Part000Program.report.
    destruct (Part000.HasUpdates NewVersion (map Some cs)) as [r logged].
    cbn [fst] in Hall. subst r. cbn [fst snd]. split; [reflexivity|].
    now rewrite stdout_of_app, stdout_of_Stderr.
  - intros Hall. unfold MainProgram.report.
    now rewrite (Main_HasUpdates_all_false NewVersion cs Hall).
Qed.

Lemma report_up_to_date_witness :
  stdout_of (Part000Program.report semver.NewVersion String.length "latest"
               [Some (versions "db" "2.0.0" "v2.0.0"); Some (versions "web" "main" "main")]).1
  = [Part000Program.up_to_date].
Proof.
  apply (proj1 (report_up_to_date semver.NewVersion String.length "latest"
                  [versions "db" "2.0.0" "v2.0.0"; versions "web" "main" "main"])).
  intros c [<-|[<-|[]]]; reflexivity.
Defined.

(** X6. A set with a nil entry never gets a line on the standard output:
    in both drafts the report panics before the header is printed, in
    HasUpdates or in the computation of the paddings; in part_000 the panic
    is the nil dereference, and part_000's report returns on every set
    without nil entry. *)
Theorem report_gap_prints_nothing
        (NewVersion : string -> result semver.Version)
        (RuneCountInString : string -> nat)
        (flagStatus : string) (cs : list (option ReleaseComparer)) :
  (In None cs ->
   (Part000Program.report NewVersion RuneCountInString flagStatus cs).2
   = Crashed NilDereference
   /\ stdout_of (Part000Program.report NewVersion RuneCountInString flagStatus cs).1 = []
   /\ exists p, MainProgram.report NewVersion RuneCountInString flagStatus cs
                = ([], Crashed p))
  /\ (~ In None cs ->
      (Part000Program.report NewVersion RuneCountInString flagStatus cs).2 = Returned).
Proof.
  split.
  - intros Hgap. split; [|split].
    + unfold Part000Program.report.
      destruct (Part000_HasUpdates_false_no_gap NewVersion cs) as [Hfalse Hpanic].
      destruct (Part000.HasUpdates NewVersion cs) as [[[]|p] logged]; cbn [fst] in *.
      * now rewrite (getColumnPaddings_gap cs Hgap).
      * now destruct Hfalse.
      * now destruct (Hpanic p eq_refl) as [-> _].
    + unfold Part000Program.report.
      destruct (Part000_HasUpdates_false_no_gap NewVersion cs) as [Hfalse Hpanic].
      destruct (Part000.HasUpdates NewVersion cs) as [[[]|p] logged]; cbn [fst] in *.
      * rewrite (getColumnPaddings_gap cs Hgap). apply stdout_of_Stderr.
      * now destruct Hfalse.
      * apply stdout_of_Stderr.
    + unfold MainProgram.report.
      destruct (Main.HasUpdates NewVersion cs) as [[]|p] eqn:Hcs; [| |eauto].
      * rewrite (getColumnPaddings_gap cs Hgap). eauto.
      * destruct (Main_HasUpdates_false_no_gap NewVersion cs Hcs None Hgap)
          as (c & [=] & _).
  - intros Hfree. destruct (gap_or_gap_free cs) as [Hin|[cs' ->]]; [tauto|].
    unfold Part000Program.report.
    destruct (Part000_HasUpdates_no_gap NewVersion cs') as (b & Hb & _).
    destruct (Part000.HasUpdates NewVersion (map Some cs')) as [r logged].
    cbn [fst] in Hb. subst r. destruct b; [|reflexivity].
    destruct (getColumnPaddings_gap_free cs') as (n & v & -> & _).
    destruct (Part000_rows_gap_free NewVersion RuneCountInString flagStatus
                (fun c => if (flagStatus =? "all")%string then true
                          else if (flagStatus =? "outdated")%string
                               then (Part000.HasUpdate NewVersion c).1
                               else if (flagStatus =? "latest")%string
                                    then negb (Part000.HasUpdate NewVersion c).1
                                    else false) n v cs') as [Hex _]; [reflexivity|].
    destruct (Part000Program.rows NewVersion RuneCountInString flagStatus n v
                (map Some cs')) as [out ex].
    exact Hex.
Qed.

Lemma report_gap_prints_nothing_witness :
  stdout_of (Part000Program.report semver.NewVersion String.length "all"
               [Some (versions "web" "1.0.0" "1.1.0"); None]).1 = [].
Proof.
  apply (proj1 (report_gap_prints_nothing semver.NewVersion String.length "all"
                  [Some (versions "web" "1.0.0" "1.1.0"); None])).
  right; left; reflexivity.
Defined.



Section MainReport.

Variable NewVersion : string -> result semver.Version.
Variable RuneCountInString : string -> nat.

(** Every entry is a comparer on which main.go's HasUpdate returns. *)
Local Abbreviation all_return cs :=
  (forall o, In o cs -> exists c b, o = Some c /\ Main.HasUpdate NewVersion c = Ret b).

Lemma Main_rows_Returned (flagStatus : string) (n v : nat)
      (cs : list (option ReleaseComparer)) :
  (MainProgram.rows NewVersion RuneCountInString flagStatus n v cs).2 = Returned
  <-> all_return cs.
Proof.
  induction cs as [|[c|] cs IH]; cbn [MainProgram.rows].
  - split; [intros _ o []|reflexivity].
  - destruct (Main.HasUpdate NewVersion c) as [b|p] eqn:Hc.
    + assert (Hprinted :
               exists printed,
                 (if (flagStatus =? "all")%string
                  then Ret [Stdout (row_text RuneCountInString n v c
                                      (if b then MainProgram.status_outdated
                                       else MainProgram.status_latest))]
                  else if (flagStatus =? "outdated")%string
                       then Ret (if b
                                 then [Stdout (row_text RuneCountInString n v c
                                                 (if b then MainProgram.status_outdated
                                                  else MainProgram.status_latest))]
                                 else [])
                       else if (flagStatus =? "latest")%string
                            then Ret (if negb b
                                      then [Stdout (row_text RuneCountInString n v c
                                                      (if b
                                                       then MainProgram.status_outdated
                                                       else MainProgram.status_latest))]
                                      else [])
                            else Ret []) = Ret printed).
      { destruct (flagStatus =? "all")%string; [eauto|].
        destruct (flagStatus =? "outdated")%string; [eauto|].
        destruct (flagStatus =? "latest")%string; eauto. }
      destruct Hprinted as [printed ->].
      destruct (MainProgram.rows NewVersion RuneCountInString flagStatus n v cs)
        as [out ex]. cbn [snd] in *. rewrite IH. split.
      * intros Hcs o [<-|Hin]; [eauto|now apply Hcs].
      * intros Hcs o Hin. apply Hcs. now right.
    + cbn [snd]. split; [discriminate|].
      intros Hcs. destruct (Hcs (Some c)) as (c' & b & [= <-] & Hb); [now left|].
      congruence.
  - cbn [snd]. split; [discriminate|].
    intros Hcs. destruct (Hcs None) as (c' & b & [=] & _). now left.
Qed.

Lemma Main_HasUpdates_returns (cs : list (option ReleaseComparer)) :
  all_return cs -> exists b, Main.HasUpdates NewVersion cs = Ret b.
Proof.
  induction cs as [|[c|] cs IH]; intros Hcs; simpl; [eauto| |].
  - destruct (Hcs (Some c)) as (c' & b & [= <-] & ->); [now left|].
    destruct b; [eauto|]. apply IH. intros o Hin. apply Hcs. now right.
  - destruct (Hcs None) as (c' & b & [=] & _). now left.
Qed.

Lemma Main_report_Returned (flagStatus : string) (cs : list (option ReleaseComparer)) :
  (MainProgram.report NewVersion RuneCountInString flagStatus cs).2 = Returned
  <-> all_return cs.
Proof.
  unfold MainProgram.report. split.
  - destruct (Main.HasUpdates NewVersion cs) as [[]|p] eqn:Hcs; [| |discriminate].
    + destruct (getColumnPaddings cs) as [[n v]|p]; [|discriminate].
      pose proof (Main_rows_Returned flagStatus n v cs) as Hrows.
      destruct (MainProgram.rows NewVersion RuneCountInString flagStatus n v cs)
        as [out ex]. cbn [snd] in *. apply Hrows.
    + intros _ o Hin.
      destruct (Main_HasUpdates_false_no_gap NewVersion cs Hcs o Hin) as (c & -> & Hc).
      eauto.
  - intros Hcs. destruct (Main_HasUpdates_returns cs Hcs) as [b ->].
    destruct b; [|reflexivity].
    destruct (gap_or_gap_free cs) as [Hin|[cs' ->]].
    { destruct (Hcs None Hin) as (c & b & [=] & _). }
    destruct (getColumnPaddings_gap_free cs') as (n & v & -> & _).
    pose proof (Main_rows_Returned flagStatus n v (map Some cs')) as Hrows.
    destruct (MainProgram.rows NewVersion RuneCountInString flagStatus n v (map Some cs'))
      as [out ex]. cbn [snd] in *. now apply Hrows.
Qed.

End MainReport.

(** X8. main.go's report returns exactly when every entry of the set is a
    comparer on which HasUpdate returns: one nil entry, or one comparer whose
    versions differ and do not both parse, makes it panic, under every value
    of the status flag. *)
Theorem Main_report_returns_iff
        (NewVersion : string -> result semver.Version)
        (RuneCountInString : string -> nat)
        (flagStatus : string) (cs : list (option ReleaseComparer)) :
  (MainProgram.report NewVersion RuneCountInString flagStatus cs).2 = Returned
  <-> forall o, In o cs ->
                exists c b, o = Some c /\ Main.HasUpdate NewVersion c = Ret b.
Proof. apply Main_report_Returned. Qed.

(** ** The searches and the cells of a run of part_000's CheckForUpdates *)

Lemma flat_map_insert {A B} (f : A -> list B) (l : list A) (k : nat) (x y : A)
      (extra : list B) :
  l !! k = Some x -> f y = f x ++ extra ->
  Permutation (flat_map f (<[k := y]> l)) (flat_map f l ++ extra).
Proof.
  intros Hk Hf.
  rewrite insert_take_drop by (eapply lookup_lt_Some; eauto).
  rewrite <- (take_drop_middle l k x Hk) at 3.
  rewrite !flat_map_app. cbn [flat_map]. rewrite Hf, <- !app_assoc.
  apply Permutation_app_head, Permutation_app_head, Permutation_app_comm.
Qed.

Section Part000Effects.

Variable helm_search_repo : string -> result string.
Variable yaml_Unmarshal : string -> result (list HelmChartInfo.t).

Local Abbreviation lookup := (GetReleaseComparer helm_search_repo yaml_Unmarshal).
Local Abbreviation step := (Part000.step helm_search_repo yaml_Unmarshal).
Local Abbreviation run := (Part000.run helm_search_repo yaml_Unmarshal).

Lemma GetReleaseComparer_searches (release : Release) (w : world) :
  searches (lookup release w).2 = searches w ++ search_of release.
Proof.
  unfold search_of. destruct (is_local_chart (Chart release)) eqn:Hloc.
  - rewrite GetReleaseComparer_local by done. cbn [snd searches]. now rewrite app_nil_r.
  - now rewrite GetReleaseComparer_registry.
Qed.

(** One turn: the world and the goroutines move together. *)
Lemma step_effects (st : Part000.state) (k : nat) :
  exists done,
    searches (Part000.st_world (step st k))
    = searches (Part000.st_world st) ++ flat_map search_of done
    /\ length (heap (Part000.st_world (step st k)))
       = length (heap (Part000.st_world st)) + length done
    /\ Permutation (looked_up_by (Part000.st_tasks (step st k)))
                   (looked_up_by (Part000.st_tasks st) ++ done).
Proof.
  unfold Part000.step.
  destruct (Part000.st_tasks st !! k) as [[r p]|] eqn:Hk.
  - destruct p; cbn [Part000.t_pc Part000.t_release].
    + exists [r].
      pose proof (GetReleaseComparer_searches r (Part000.st_world st)) as Hs.
      pose proof (GetReleaseComparer_heap helm_search_repo yaml_Unmarshal r
                    (Part000.st_world st)) as Hh.
      destruct (lookup r (Part000.st_world st)) as [res w'].
      cbn [Part000.st_world Part000.st_tasks snd] in *. unfold Part000.set_task.
      cbn [Part000.t_release flat_map]. rewrite Hs, Hh, app_nil_r, length_app.
      split; [reflexivity|]. split; [reflexivity|].
      now apply (flat_map_insert _ _ k (Part000.mkTask r Part000.AtLookup)).
    + exists []. cbn [Part000.st_world Part000.st_tasks flat_map length].
      rewrite !app_nil_r, Nat.add_0_r. split; [reflexivity|]. split; [reflexivity|].
      unfold Part000.set_task. cbn [Part000.t_release].
      rewrite <- (app_nil_r (looked_up_by (Part000.st_tasks st))).
      now apply (flat_map_insert _ _ k (Part000.mkTask r (Part000.AtCheck comparer))).
    + exists []. cbn [Part000.st_world Part000.st_tasks flat_map length].
      rewrite !app_nil_r, Nat.add_0_r. split; [reflexivity|]. split; [reflexivity|].
      unfold Part000.set_task. cbn [Part000.t_release].
      rewrite <- (app_nil_r (looked_up_by (Part000.st_tasks st))).
      now apply (flat_map_insert _ _ k (Part000.mkTask r (Part000.AtStore comparer))).
    + exists []. cbn [flat_map length]. now rewrite !app_nil_r, Nat.add_0_r.
  - exists []. cbn [flat_map length]. now rewrite !app_nil_r, Nat.add_0_r.
Qed.

Lemma flat_map_Permutation {A B} (f : A -> list B) (l l' : list A) :
  Permutation l l' -> Permutation (flat_map f l) (flat_map f l').
Proof.
  induction 1 as [|x l l' _ IH|x y l|l l' l'' _ IH1 _ IH2]; simpl.
  - reflexivity.
  - now apply Permutation_app_head.
  - rewrite !app_assoc. apply Permutation_app_tail, Permutation_app_comm.
  - now rewrite IH1.
Qed.

Lemma run_effects (sched : list nat) (st : Part000.state) :
  exists done,
    Permutation (searches (Part000.st_world (run sched st)))
                (searches (Part000.st_world st) ++ flat_map search_of done)
    /\ length (heap (Part000.st_world (run sched st)))
       = length (heap (Part000.st_world st)) + length done
    /\ Permutation (looked_up_by (Part000.st_tasks (run sched st)))
                   (looked_up_by (Part000.st_tasks st) ++ done).
Proof.
  unfold Part000.run. revert st. induction sched as [|k sched IH]; intros st.
  - exists []. cbn [foldl flat_map length]. now rewrite !app_nil_r, Nat.add_0_r.
  - cbn [foldl]. destruct (IH (step st k)) as (done' & Hs' & Hh' & Hl').
    destruct (step_effects st k) as (done & Hs & Hh & Hl).
    exists (done ++ done'). rewrite Hs', Hh', Hl', Hs, Hh, Hl.
    rewrite flat_map_app, length_app, !app_assoc. split; [reflexivity|].
    split; [lia|reflexivity].
Qed.

Lemma looked_up_by_start (um : UpdateManager) (w : world) :
  looked_up_by (Part000.st_tasks (Part000.start um w)) = [].
Proof.
  unfold Part000.start. cbn [Part000.st_tasks].
  induction (Releases (um_Helmfile um)) as [|r rs IH]; simpl; auto.
Qed.

Lemma looked_up_by_Finished (tasks : list Part000.task) :
  forallb Part000.is_Finished tasks = true ->
  looked_up_by tasks = map Part000.t_release tasks.
Proof.
  induction tasks as [|[r p] tasks IH]; simpl; [reflexivity|].
  intros [Hp Hrest]%andb_prop. unfold Part000.is_Finished, past_lookup in *.
  cbn [Part000.t_pc Part000.t_release] in *. destruct p; try discriminate.
  cbn [app]. now rewrite IH.
Qed.

Lemma flat_map_search_of (releases : list Release) :
  flat_map search_of releases
  = List.filter (fun chart => negb (is_local_chart chart)) (map Chart releases).
Proof.
  induction releases as [|r rs IH]; simpl; [reflexivity|].
  unfold search_of at 1. destruct (is_local_chart (Chart r)); simpl; now rewrite IH.
Qed.

Lemma CheckForUpdates_effects (sched : list nat) (um um' : UpdateManager) (w w' : world)
      (e : option error) :
  Part000.CheckForUpdates helm_search_repo yaml_Unmarshal sched um w = Some (um', e, w') ->
  Permutation (searches w')
              (searches w ++ List.filter (fun chart => negb (is_local_chart chart))
                                         (map Chart (Releases (um_Helmfile um))))
  /\ length (heap w') = length (heap w) + length (Releases (um_Helmfile um)).
Proof.
  unfold Part000.CheckForUpdates. destruct (forallb _ _) eqn:Hall; [|discriminate].
  intros [= _ _ <-].
  destruct (run_effects sched (Part000.start um w)) as (done & Hs & Hh & Hl).
  rewrite looked_up_by_start, (looked_up_by_Finished _ Hall) in Hl. cbn [app] in Hl.
  destruct (Inv_run helm_search_repo yaml_Unmarshal um w sched) as [_ Htasks _ _ _].
  assert (Hrel : map Part000.t_release
                     (Part000.st_tasks (run sched (Part000.start um w)))
                 = Releases (um_Helmfile um)).
  { apply list_eq. intros i. rewrite lookup_map. apply Htasks. }
  rewrite Hrel in Hl. cbn [Part000.start Part000.st_world] in Hs, Hh.
  split.
  - rewrite Hs, <- flat_map_search_of. apply Permutation_app_head.
    apply flat_map_Permutation. now symmetry.
  - rewrite Hh. f_equal. symmetry. now apply Permutation_length.
Qed.

End Part000Effects.

(** X9. Whatever the interleaving, a run of part_000's CheckForUpdates that
    returns has searched the registry once for each release whose chart
    reference is not a local path, and for nothing else (in an order that
    depends on the interleaving), and has allocated one bool cell a
    release. *)
Theorem CheckForUpdates_searches_each_registry_chart_once
        (helm_search_repo : string -> result string)
        (yaml_Unmarshal : string -> result (list HelmChartInfo.t))
        (sched : list nat) (um um' : UpdateManager) (w w' : world) (e : option error) :
  Part000.CheckForUpdates helm_search_repo yaml_Unmarshal sched um w = Some (um', e, w') ->
  Permutation (searches w')
              (searches w ++ List.filter (fun chart => negb (is_local_chart chart))
                                         (map Chart (Releases (um_Helmfile um))))
  /\ length (heap w') = length (heap w) + length (Releases (um_Helmfile um)).
Proof. apply CheckForUpdates_effects. Qed.

Lemma CheckForUpdates_searches_each_registry_chart_once_witness :
  exists um' e w',
    Part000.CheckForUpdates example_search example_yaml [1; 0; 1; 0; 0; 1]
                            example_manager empty_world = Some (um', e, w')
    /\ Permutation (searches w') ["repoA/a"]
    /\ length (heap w') = 2.
Proof.
  eexists _, _, _. split; [vm_compute; reflexivity|].
  apply (CheckForUpdates_searches_each_registry_chart_once
           example_search example_yaml [1; 0; 1; 0; 0; 1]
           example_manager _ empty_world _ _ eq_refl).
Defined.

(** ** The error and the gaps of a run of CheckForUpdates *)

Section Part000Soundness.

Variable helm_search_repo : string -> result string.
Variable yaml_Unmarshal : string -> result (list HelmChartInfo.t).

Local Abbreviation lookup := (GetReleaseComparer helm_search_repo yaml_Unmarshal).
Local Abbreviation step := (Part000.step helm_search_repo yaml_Unmarshal).
Local Abbreviation run := (Part000.run helm_search_repo yaml_Unmarshal).

(** The lookup of [release] fails, in whatever world it runs. *)
Local Abbreviation fails release w :=
  (error_of (lookup release w).1 <> None).

(** The shared [err] is only ever set by a lookup that failed. *)
Lemma err_sound_step (um : UpdateManager) (w0 : world) (st : Part000.state) (k : nat) :
  Inv helm_search_repo yaml_Unmarshal um w0 st ->
  (Part000.st_err st <> None ->
   exists release, In release (Releases (um_Helmfile um)) /\ fails release w0) ->
  Part000.st_err (step st k) <> None ->
  exists release, In release (Releases (um_Helmfile um)) /\ fails release w0.
Proof.
  intros [_ Htasks _ _ _] Hsound. unfold Part000.step.
  destruct (Part000.st_tasks st !! k) as [[r p]|] eqn:Hk; [|exact Hsound].
  assert (Hin : In r (Releases (um_Helmfile um))).
  { specialize (Htasks k). rewrite Hk in Htasks. symmetry in Htasks.
    apply list_elem_of_In, list_elem_of_lookup. eauto. }
  destruct p; cbn [Part000.t_pc Part000.t_release]; try exact Hsound.
  - destruct (lookup r (Part000.st_world st)) as [res w'] eqn:Hl.
    cbn [Part000.st_err]. intros Herr. exists r. split; [exact Hin|].
    rewrite (GetReleaseComparer_error helm_search_repo yaml_Unmarshal r w0
               (Part000.st_world st)), Hl. exact Herr.
  - cbn [Part000.st_err]. destruct (Part000.st_err st); [|congruence].
    intros _. apply Hsound. discriminate.
Qed.

Lemma err_sound_run (um : UpdateManager) (w0 : world) (sched : list nat) :
  Part000.st_err (run sched (Part000.start um w0)) <> None ->
  exists release, In release (Releases (um_Helmfile um)) /\ fails release w0.
Proof.
  unfold Part000.run.
  assert (Hgen : forall st,
             Inv helm_search_repo yaml_Unmarshal um w0 st ->
             (Part000.st_err st <> None ->
              exists release, In release (Releases (um_Helmfile um)) /\ fails release w0) ->
             Part000.st_err (foldl step st sched) <> None ->
             exists release, In release (Releases (um_Helmfile um)) /\ fails release w0).
  { induction sched as [|k sched IH]; intros st Hinv Hsound; [exact Hsound|].
    cbn [foldl]. apply IH; [now apply Inv_step|now apply err_sound_step]. }
  apply Hgen; [apply Inv_start|]. cbn [Part000.start Part000.st_err]. congruence.
Qed.

Lemma CheckForUpdates_sound (sched : list nat) (um um' : UpdateManager) (w w' : world)
      (e : option error) :
  Part000.CheckForUpdates helm_search_repo yaml_Unmarshal sched um w = Some (um', e, w') ->
  (e <> None ->
   exists release, In release (Releases (um_Helmfile um)) /\ fails release w)
  /\ (forall i release,
         Releases (um_Helmfile um) !! i = Some release ->
         (Comparisons um' !! i = Some None <-> fails release w)
         /\ (error_of (lookup release w).1 = None ->
             exists rc, Comparisons um' !! i = Some (Some rc))).
Proof.
  intros Hrun. split.
  - revert Hrun. unfold Part000.CheckForUpdates.
    destruct (forallb _ _); [|discriminate]. intros [= _ <- _]. apply err_sound_run.
  - intros i release Hi.
    destruct (CheckForUpdates_slots helm_search_repo yaml_Unmarshal _ _ _ _ _ _ Hrun)
      as [_ Hslot].
    destruct (Hslot i release Hi) as (wi & ->).
    rewrite (GetReleaseComparer_error helm_search_repo yaml_Unmarshal release w wi).
    destruct (lookup release wi).1 as [rc|err]; cbn [comparer_of error_of].
    + split; [split; [discriminate|congruence]|eauto].
    + split; [split; [discriminate|reflexivity]|]. discriminate.
Qed.

End Part000Soundness.

(** X10. In part_000 a returned error is never a false alarm and a gap is
    always a failed lookup, under every interleaving: a non-nil error means
    that the lookup of some release of the manifest fails; slot [i] is nil
    exactly when the lookup of release [i] fails; so when no lookup fails the
    error is nil and every slot holds a comparer. *)
Theorem CheckForUpdates_error_is_sound
        (helm_search_repo : string -> result string)
        (yaml_Unmarshal : string -> result (list HelmChartInfo.t))
        (sched : list nat) (um um' : UpdateManager) (w w' : world) (e : option error) :
  Part000.CheckForUpdates helm_search_repo yaml_Unmarshal sched um w = Some (um', e, w') ->
  (e <> None ->
   exists release,
     In release (Releases (um_Helmfile um))
     /\ error_of (GetReleaseComparer helm_search_repo yaml_Unmarshal release w).1 <> None)
  /\ (forall i release,
         Releases (um_Helmfile um) !! i = Some release ->
         (Comparisons um' !! i = Some None
          <-> error_of (GetReleaseComparer helm_search_repo yaml_Unmarshal release w).1
              <> None)
         /\ (error_of (GetReleaseComparer helm_search_repo yaml_Unmarshal release w).1
             = None ->
             exists rc, Comparisons um' !! i = Some (Some rc))).
Proof. apply CheckForUpdates_sound. Qed.

Lemma CheckForUpdates_error_is_sound_witness :
  exists um' e w',
    Part000.CheckForUpdates example_search example_yaml [1; 1; 1; 0; 0; 0]
                            failing_manager empty_world = Some (um', e, w')
    /\ (Comparisons um' !! 0 = Some None
        <-> error_of (GetReleaseComparer example_search example_yaml
                        (declared "c" "repoC/c" "1.0.0") empty_world).1 <> None).
Proof.
  eexists _, _, _. split; [vm_compute; reflexivity|].
  apply (proj2 (CheckForUpdates_error_is_sound
                  example_search example_yaml [1; 1; 1; 0; 0; 0]
                  failing_manager _ empty_world _ _ eq_refl)
               0 (declared "c" "repoC/c" "1.0.0") eq_refl).
Defined.

Section MainSoundness.

Variable helm_search_repo : string -> result string.
Variable yaml_Unmarshal : string -> result (list HelmChartInfo.t).

Local Abbreviation lookup := (GetReleaseComparer helm_search_repo yaml_Unmarshal).
Local Abbreviation step := (Main.step helm_search_repo yaml_Unmarshal).
Local Abbreviation run := (Main.run helm_search_repo yaml_Unmarshal).

(** A panic of main.go's engine carries the error of a failed lookup. *)
Local Abbreviation panic_sound um w0 st :=
  (forall p, Main.st_panic st = Some p ->
             exists release err,
               In release (Releases (um_Helmfile um))
               /\ error_of (lookup release w0).1 = Some err /\ p = PanicError err).

(** While nothing has panicked, every lookup made so far succeeded. *)
Local Abbreviation no_failure um w0 st :=
  (Main.st_panic st = None ->
   forall i release,
     Releases (um_Helmfile um) !! i = Some release ->
     Main_held st i <> None -> error_of (lookup release w0).1 = None).

Lemma Main_sound_step (um : UpdateManager) (w0 : world) (st : Main.state) (k : nat) :
  Main_Inv helm_search_repo yaml_Unmarshal um st ->
  panic_sound um w0 st /\ no_failure um w0 st ->
  panic_sound um w0 (step st k) /\ no_failure um w0 (step st k).
Proof.
  intros [Hslots Htasks _] [Hpanic Hok].
  destruct (Main.st_panic st) as [p0|] eqn:Hp0.
  { unfold Main.step. rewrite Hp0.
    split; [intros q Hq; apply Hpanic; congruence|intros Hq; congruence]. }
  destruct (Main.st_tasks st !! k) as [[r p]|] eqn:Hk; cycle 1.
  { unfold Main.step. rewrite Hp0, Hk.
    split; [intros q Hq; congruence|intros _; now apply Hok]. }
  assert (Hrel : Releases (um_Helmfile um) !! k = Some r).
  { rewrite <- Htasks, Hk. reflexivity. }
  assert (Hin : In r (Releases (um_Helmfile um))).
  { apply list_elem_of_In, list_elem_of_lookup. eauto. }
  assert (Hlt : k < length (Main.st_comparisons st)).
  { rewrite Hslots. eapply lookup_lt_Some; eauto. }
  assert (Hheld : forall i, Main_held (step st k) i
                            = match p with
                              | Main.AtLookup =>
                                  if decide (i = k)
                                  then Some (comparer_of (lookup r (Main.st_world st)).1)
                                  else Main_held st i
                              | _ => Main_held st i
                              end).
  { intros i. rewrite Main_held_step, Hp0, Hk by exact Hlt. reflexivity. }
  assert (Hpanic' : Main.st_panic (step st k)
                    = match p with
                      | Main.AtLookup =>
                          PanicError <$> error_of (lookup r (Main.st_world st)).1
                      | _ => None
                      end).
  { unfold Main.step. rewrite Hp0, Hk. cbn [Main.t_pc Main.t_release].
    destruct p; [|reflexivity|exact Hp0].
    now destruct (lookup r (Main.st_world st)). }
  split.
  - intros q. rewrite Hpanic'. destruct p; try discriminate.
    destruct (error_of (lookup r (Main.st_world st)).1) as [err|] eqn:Herr;
      [|discriminate].
    intros [= <-]. exists r, err. split; [exact Hin|]. split; [|reflexivity].
    now rewrite (GetReleaseComparer_error helm_search_repo yaml_Unmarshal r w0
                   (Main.st_world st)).
  - rewrite Hpanic'. intros Hnone i release Hi. rewrite Hheld.
    destruct p; try solve [apply Hok; auto].
    case_decide as Hik; [subst i|solve [apply Hok; auto]].
    intros _. rewrite Hrel in Hi. injection Hi as <-.
    rewrite (GetReleaseComparer_error helm_search_repo yaml_Unmarshal r w0
               (Main.st_world st)).
    now destruct (error_of (lookup r (Main.st_world st)).1).
Qed.

Lemma Main_sound_run (um : UpdateManager) (w0 : world) (sched : list nat) :
  panic_sound um w0 (run sched (Main.start um w0))
  /\ no_failure um w0 (run sched (Main.start um w0)).
Proof.
  unfold Main.run.
  assert (Hgen : forall st,
             Main_Inv helm_search_repo yaml_Unmarshal um st ->
             panic_sound um w0 st /\ no_failure um w0 st ->
             panic_sound um w0 (foldl step st sched)
             /\ no_failure um w0 (foldl step st sched)).
  { induction sched as [|k sched IH]; intros st Hinv Hsound; [exact Hsound|].
    cbn [foldl]. apply IH; [now apply Main_Inv_step|now apply Main_sound_step]. }
  apply Hgen; [apply Main_Inv_start|]. split.
  - cbn [Main.start Main.st_panic]. discriminate.
  - intros _ i release Hi. unfold Main_held, Main.start. cbn [Main.st_tasks].
    rewrite lookup_map, Hi. cbn. congruence.
Qed.

Lemma Main_CheckForUpdates_sound (sched : list nat) (um : UpdateManager) (w w' : world)
      (r : outcome (UpdateManager * option error)) :
  Main.CheckForUpdates helm_search_repo yaml_Unmarshal sched um w = Some (r, w') ->
  match r with
  | Ret (um', e) =>
      e = None
      /\ forall i release,
          Releases (um_Helmfile um) !! i = Some release ->
          error_of (lookup release w).1 = None
          /\ exists rc, Comparisons um' !! i = Some (Some rc)
  | Panic p =>
      exists release err,
        In release (Releases (um_Helmfile um))
        /\ error_of (lookup release w).1 = Some err /\ p = PanicError err
  end.
Proof.
  intros Hrun. destruct r as [[um' e]|p].
  - destruct (Main_CheckForUpdates_slots helm_search_repo yaml_Unmarshal _ _ _ _ _ _ Hrun)
      as (-> & _ & Hlen & Hslot).
    split; [reflexivity|]. intros i release Hi.
    destruct (Hslot i release Hi) as (wi & Hwi).
    assert (Hok : error_of (lookup release w).1 = None).
    { revert Hrun Hwi. unfold Main.CheckForUpdates.
      destruct (Main_sound_run um w sched) as [_ Hno].
      destruct (Main_Inv_run helm_search_repo yaml_Unmarshal um w sched)
        as [_ Htasks _].
      destruct (Main.st_panic _) eqn:Hp; [discriminate|].
      destruct (forallb _ _) eqn:Hall; [|discriminate].
      intros [= <- _]. cbn [Comparisons app]. intros Hwi.
      apply (Hno eq_refl i release Hi). unfold Main_held.
      specialize (Htasks i). rewrite Hi in Htasks.
      destruct (Main.st_tasks _ !! i) as [t|] eqn:Ht; [|discriminate].
      rewrite forallb_forall in Hall.
      assert (Hin : In t (Main.st_tasks (run sched (Main.start um w)))).
      { apply list_elem_of_In, list_elem_of_lookup. eauto. }
      apply Hall in Hin. unfold Main.is_Finished in Hin.
      destruct (Main.t_pc t); try discriminate. rewrite Hwi. discriminate. }
    split; [exact Hok|]. rewrite Hwi.
    rewrite (GetReleaseComparer_error helm_search_repo yaml_Unmarshal release w wi) in Hok.
    destruct (lookup release wi).1; [eauto|discriminate].
  - revert Hrun. unfold Main.CheckForUpdates.
    destruct (Main_sound_run um w sched) as [Hpanic _].
    destruct (Main.st_panic _) as [q|] eqn:Hq.
    + intros [= <- _]. now apply Hpanic.
    + destruct (forallb _ _); discriminate.
Qed.

End MainSoundness.



(** ** One outcome for all interleavings *)

Section Interleavings.

Variable helm_search_repo : string -> result string.
Variable yaml_Unmarshal : string -> result (list HelmChartInfo.t).

Local Abbreviation lookup := (GetReleaseComparer helm_search_repo yaml_Unmarshal).

(** The world a lookup runs in decides the address of the defaulted flag
    and nothing else. *)
Lemma lookup_same_text (release : Release) (w1 w2 : world) :
  option_Forall2 same_text (comparer_of (lookup release w1).1)
                 (comparer_of (lookup release w2).1).
Proof.
  destruct (defaulted_fields release (length (heap w1))) as (Hn1 & Hc1 & Hv1).
  destruct (defaulted_fields release (length (heap w2))) as (Hn2 & Hc2 & Hv2).
  destruct (is_local_chart (Chart release)) eqn:Hloc.
  - rewrite !GetReleaseComparer_local by done. constructor.
    unfold same_text. cbn [Current Latest]. repeat split; congruence.
  - rewrite !GetReleaseComparer_registry by done. cbn [fst].
    destruct (helm_search_repo (Chart release)) as [output|err]; [|constructor].
    destruct (yaml_Unmarshal output) as [[|chart0 ?]|err]; try constructor.
    unfold same_text. cbn [Current Latest Name Chart Version]. repeat split; congruence.
Qed.

Lemma HasUpdate_respects_same_text (NewVersion : string -> result semver.Version)
      (rc rc' : ReleaseComparer) :
  same_text rc rc' ->
  (Part000.HasUpdate NewVersion rc).1 = (Part000.HasUpdate NewVersion rc').1.
Proof.
  intros (_ & _ & Hc & _ & _ & Hl). unfold Part000.HasUpdate. rewrite Hc, Hl.
  destruct (_ =? _)%string; [reflexivity|].
  destruct (NewVersion (TrimPrefix (Version (Current rc')) "v")); [|reflexivity].
  now destruct (NewVersion (TrimPrefix (Version (Latest rc')) "v")).
Qed.

Lemma HasUpdates_respects_same_text (NewVersion : string -> result semver.Version)
      (cs cs' : list (option ReleaseComparer)) :
  Forall2 (option_Forall2 same_text) cs cs' ->
  (Part000.HasUpdates NewVersion cs).1 = (Part000.HasUpdates NewVersion cs').1.
Proof.
  induction 1 as [|o o' cs cs' Ho _ IH]; [reflexivity|].
  destruct Ho as [rc rc' Hrc|]; simpl; [|reflexivity].
  pose proof (HasUpdate_respects_same_text NewVersion rc rc' Hrc) as Hb.
  destruct (Part000.HasUpdate NewVersion rc) as [b out],
           (Part000.HasUpdate NewVersion rc') as [b' out']. simpl in Hb. subst b'.
  destruct b; [reflexivity|].
  destruct (Part000.HasUpdates NewVersion cs), (Part000.HasUpdates NewVersion cs').
  exact IH.
Qed.

Lemma CheckForUpdates_same_text (sched1 sched2 : list nat) (um um1 um2 : UpdateManager)
      (w1 w2 w1' w2' : world) (e1 e2 : option error) :
  Part000.CheckForUpdates helm_search_repo yaml_Unmarshal sched1 um w1
  = Some (um1, e1, w1') ->
  Part000.CheckForUpdates helm_search_repo yaml_Unmarshal sched2 um w2
  = Some (um2, e2, w2') ->
  Forall2 (option_Forall2 same_text) (Comparisons um1) (Comparisons um2).
Proof.
  intros [Hlen1 Hslot1]%CheckForUpdates_slots [Hlen2 Hslot2]%CheckForUpdates_slots.
  apply Forall2_same_length_lookup. split; [congruence|].
  intros i c1 c2 Hc1 Hc2.
  assert (Hlt : i < length (Releases (um_Helmfile um))).
  { rewrite <- Hlen1. eapply lookup_lt_Some; eauto. }
  apply lookup_lt_is_Some in Hlt as [release Hi].
  destruct (Hslot1 i release Hi) as (wa & Ha), (Hslot2 i release Hi) as (wb & Hb).
  rewrite Ha in Hc1. rewrite Hb in Hc2. injection Hc1 as <-. injection Hc2 as <-.
  apply lookup_same_text.
Qed.

End Interleavings.

(** X12. Two runs of part_000's CheckForUpdates over the same manifest,
    under any two interleavings and from any two worlds, return the same
    comparison set up to the addresses of the installed flags: the same slots
    are nil, and the comparers of a slot have the same names, charts and
    versions on both sides; so HasUpdates answers the same on both sets. *)
Theorem CheckForUpdates_interleaving_independent
        (helm_search_repo : string -> result string)
        (yaml_Unmarshal : string -> result (list HelmChartInfo.t))
        (NewVersion : string -> result semver.Version)
        (sched1 sched2 : list nat) (um um1 um2 : UpdateManager)
        (w1 w2 w1' w2' : world) (e1 e2 : option error) :
  Part000.CheckForUpdates helm_search_repo yaml_Unmarshal sched1 um w1
  = Some (um1, e1, w1') ->
  Part000.CheckForUpdates helm_search_repo yaml_Unmarshal sched2 um w2
  = Some (um2, e2, w2') ->
  Forall2 (option_Forall2 same_text) (Comparisons um1) (Comparisons um2)
  /\ (Part000.HasUpdates NewVersion (Comparisons um1)).1
     = (Part000.HasUpdates NewVersion (Comparisons um2)).1.
Proof.
  intros H1 H2.
  pose proof (CheckForUpdates_same_text helm_search_repo yaml_Unmarshal
                _ _ _ _ _ _ _ _ _ _ _ H1 H2) as Hsame.
  split; [exact Hsame|now apply HasUpdates_respects_same_text].
Qed.

Lemma CheckForUpdates_interleaving_independent_witness :
  exists um1 e1 w1' um2 e2 w2',
    Part000.CheckForUpdates example_search example_yaml (in_order 2)
                            example_manager empty_world = Some (um1, e1, w1')
    /\ Part000.CheckForUpdates example_search example_yaml [1; 1; 0; 1; 0; 0]
                               example_manager empty_world = Some (um2, e2, w2')
    /\ (Part000.HasUpdates semver.NewVersion (Comparisons um1)).1
       = (Part000.HasUpdates semver.NewVersion (Comparisons um2)).1.
Proof.
  eexists _, _, _, _, _, _.
  split; [vm_compute; reflexivity|]. split; [vm_compute; reflexivity|].
  apply (CheckForUpdates_interleaving_independent
           example_search example_yaml semver.NewVersion
           (in_order 2) [1; 1; 0; 1; 0; 0] example_manager _ _
           empty_world empty_world _ _ _ _ eq_refl eq_refl).
Defined.

(** ** main *)

Section Part000Main.

Variable NewVersion : string -> result semver.Version.
Variable RuneCountInString : string -> nat.
Variable helm_search_repo : string -> result string.
Variable yaml_Unmarshal : string -> result (list HelmChartInfo.t).
Variable Stat_IsNotExist : string -> bool.
Variable ReadFile : string -> result string.
Variable yaml_Unmarshal_Helmfile : string -> result Helmfile.
Variable helm_repo_update : repo_update.

Local Abbreviation lookup := (GetReleaseComparer helm_search_repo yaml_Unmarshal).
Local Abbreviation NewHelmfile :=
  (Part000Program.NewHelmfile Stat_IsNotExist ReadFile yaml_Unmarshal_Helmfile).
Local Abbreviation main :=
  (Part000Program.main NewVersion RuneCountInString helm_search_repo yaml_Unmarshal
                       Stat_IsNotExist ReadFile yaml_Unmarshal_Helmfile helm_repo_update).

(** part_000's report returns on the sets without nil entry and panics on
    the others. *)
Lemma Part000_report_exit (flagStatus : string) (cs : list (option ReleaseComparer)) :
  (Part000Program.report NewVersion RuneCountInString flagStatus cs).2 = Returned
  <-> ~ In None cs.
Proof.
  destruct (gap_or_gap_free cs) as [Hgap|[cs' ->]].
  - split; [|tauto]. unfold Part000Program.report.
    destruct (Part000_HasUpdates_false_no_gap NewVersion cs) as [Hfalse Hpanic].
    destruct (Part000.HasUpdates NewVersion cs) as [[[]|p] logged]; cbn [fst] in *.
    + now rewrite (getColumnPaddings_gap cs Hgap).
    + intros _. now apply Hfalse.
    + discriminate.
  - split; [intros _; apply map_Some_gap_free|intros _].
    unfold Part000Program.report.
    destruct (Part000_HasUpdates_no_gap NewVersion cs') as (b & Hb & _).
    destruct (Part000.HasUpdates NewVersion (map Some cs')) as [r logged].
    cbn [fst] in Hb. subst r. destruct b; [|reflexivity].
    destruct (getColumnPaddings_gap_free cs') as (n & v & -> & _).
    destruct (Part000_rows_gap_free NewVersion RuneCountInString flagStatus
                (fun c => if (flagStatus =? "all")%string then true
                          else if (flagStatus =? "outdated")%string
                               then (Part000.HasUpdate NewVersion c).1
                               else if (flagStatus =? "latest")%string
                                    then negb (Part000.HasUpdate NewVersion c).1
                                    else false) n v cs') as [Hex _]; [reflexivity|].
    destruct (Part000Program.rows NewVersion RuneCountInString flagStatus n v
                (map Some cs')) as [out ex].
    exact Hex.
Qed.

(** The set that CheckForUpdates returns has a nil entry exactly when the
    lookup of some release fails. *)
Lemma CheckForUpdates_gap_iff (sched : list nat) (um um' : UpdateManager) (w w' : world)
      (e : option error) :
  Part000.CheckForUpdates helm_search_repo yaml_Unmarshal sched um w = Some (um', e, w') ->
  (~ In None (Comparisons um')
   <-> forall release, In release (Releases (um_Helmfile um)) ->
                       error_of (lookup release w).1 = None).
Proof.
  intros Hrun.
  destruct (CheckForUpdates_slots helm_search_repo yaml_Unmarshal _ _ _ _ _ _ Hrun)
    as [Hlen _].
  destruct (CheckForUpdates_sound helm_search_repo yaml_Unmarshal _ _ _ _ _ _ Hrun)
    as [_ Hslot].
  split.
  - intros Hfree release [i Hi]%list_elem_of_In%list_elem_of_lookup.
    destruct (Hslot i release Hi) as [Hnil _].
    destruct (error_of (lookup release w).1) as [err|] eqn:Herr; [|reflexivity].
    exfalso. apply Hfree. apply list_elem_of_In, list_elem_of_lookup. exists i.
    apply Hnil. discriminate.
  - intros Hok [i Hi]%list_elem_of_In%list_elem_of_lookup.
    assert (Hlt : i < length (Releases (um_Helmfile um))).
    { rewrite <- Hlen. eapply lookup_lt_Some; eauto. }
    apply lookup_lt_is_Some in Hlt as [release Hrel].
    destruct (Hslot i release Hrel) as [Hnil _].
    apply Hnil in Hi. apply Hi, Hok.
    apply list_elem_of_In, list_elem_of_lookup. eauto.
Qed.

Lemma Part000_main_exit (flagPath flagStatus : string) (flagUpdateRepos : bool)
      (sched : list nat) (w w' : world) (evs : list event) (ex : exit) :
  main flagPath flagStatus flagUpdateRepos sched w = Some (evs, ex, w') ->
  (ex = Returned
   <-> exists helmfile,
        NewHelmfile flagPath = Ok helmfile
        /\ (flagUpdateRepos = true -> (UpdateRepositories helm_repo_update).2 = None)
        /\ forall release, In release (Releases helmfile) ->
                           error_of (lookup release w).1 = None)
  /\ (ex = Returned \/ ex = Fatal \/ ex = Crashed NilDereference).
Proof.
  unfold Part000Program.main.
  destruct (NewHelmfile flagPath) as [helmfile|err0].
  2:{ intros [= _ <- _]. split; [|auto]. split; [discriminate|].
      intros (h & [=] & _). }
  destruct (if flagUpdateRepos then UpdateRepositories helm_repo_update else ([], None))
    as [out1 [err1|]] eqn:Hupd.
  { intros [= _ <- _]. split; [|auto]. split; [discriminate|].
    intros (h & _ & Hok & _). destruct flagUpdateRepos; [|discriminate].
    rewrite Hupd in Hok. now specialize (Hok eq_refl). }
  assert (Hupd' : flagUpdateRepos = true -> (UpdateRepositories helm_repo_update).2 = None).
  { intros ->. now rewrite Hupd. }
  destruct (Part000.CheckForUpdates _ _ sched (NewUpdateManager helmfile) w)
    as [[[um' [err2|]] w2]|] eqn:Hrun; [| |discriminate].
  - intros [= _ <- _]. split; [|auto]. split; [discriminate|].
    intros (h & [= <-] & _ & Hok).
    destruct (CheckForUpdates_sound helm_search_repo yaml_Unmarshal _ _ _ _ _ _ Hrun)
      as [Herr _].
    destruct Herr as (release & Hin & Hfail); [discriminate|].
    now destruct Hfail; apply Hok.
  - pose proof (Part000_report_exit flagStatus (Comparisons um')) as Hexit.
    pose proof (CheckForUpdates_gap_iff _ _ _ _ _ _ Hrun) as Hgap.
    cbn [NewUpdateManager um_Helmfile] in Hgap.
    assert (Hcrash : (Part000Program.report NewVersion RuneCountInString flagStatus
                        (Comparisons um')).2 = Returned
                     \/ (Part000Program.report NewVersion RuneCountInString flagStatus
                           (Comparisons um')).2 = Crashed NilDereference).
    { destruct (gap_or_gap_free (Comparisons um')) as [Hin|[cs' Hcs]].
      - right. unfold Part000Program.report.
        destruct (Part000_HasUpdates_false_no_gap NewVersion (Comparisons um'))
          as [Hfalse Hpanic].
        destruct (Part000.HasUpdates NewVersion (Comparisons um')) as [[[]|p] logged];
          cbn [fst] in *.
        + now rewrite (getColumnPaddings_gap _ Hin).
        + now destruct Hfalse.
        + now destruct (Hpanic p eq_refl) as [-> _].
      - left. apply Hexit. rewrite Hcs. apply map_Some_gap_free. }
    destruct (Part000Program.report NewVersion RuneCountInString flagStatus
                (Comparisons um')) as [out3 ex3]. cbn [snd] in *.
    intros [= _ <- _]. split; [|destruct Hcrash; auto].
    rewrite Hexit, Hgap. split.
    + intros Hok. exists helmfile. auto.
    + intros (h & [= <-] & _ & Hok). exact Hok.
Qed.

End Part000Main.

(** X13. A run of part_000's main ends in one of three ways: it returns,
    log.Fatalf ends it, or it panics on a nil comparer.  It returns exactly
    when the manifest loads, the update of the repositories (when asked for)
    succeeds and the lookup of every release succeeds: a lookup failure that
    the error of CheckForUpdates has lost still keeps main from returning. *)
Theorem Part000_main_returns_iff
        (NewVersion : string -> result semver.Version)
        (RuneCountInString : string -> nat)
        (helm_search_repo : string -> result string)
        (yaml_Unmarshal : string -> result (list HelmChartInfo.t))
        (Stat_IsNotExist : string -> bool)
        (ReadFile : string -> result string)
        (yaml_Unmarshal_Helmfile : string -> result Helmfile)
        (helm_repo_update : repo_update)
        (flagPath flagStatus : string) (flagUpdateRepos : bool)
        (sched : list nat) (w w' : world) (evs : list event) (ex : exit) :
  Part000Program.main NewVersion RuneCountInString helm_search_repo yaml_Unmarshal
                      Stat_IsNotExist ReadFile yaml_Unmarshal_Helmfile helm_repo_update
                      flagPath flagStatus flagUpdateRepos sched w = Some (evs, ex, w') ->
  (ex = Returned
   <-> exists helmfile,
        Part000Program.NewHelmfile Stat_IsNotExist ReadFile yaml_Unmarshal_Helmfile
                                   flagPath = Ok helmfile
        /\ (flagUpdateRepos = true -> (UpdateRepositories helm_repo_update).2 = None)
        /\ forall release,
            In release (Releases helmfile) ->
            error_of (GetReleaseComparer helm_search_repo yaml_Unmarshal release w).1
            = None)
  /\ (ex = Returned \/ ex = Fatal \/ ex = Crashed NilDereference).
Proof. apply Part000_main_exit. Qed.

Lemma Part000_main_returns_iff_witness :
  exists evs ex w',
    Part000Program.main semver.NewVersion String.length example_search example_yaml
                        (fun _ => false) (fun _ => Ok "releases: ...")
                        (fun _ => Ok (um_Helmfile failing_manager))
                        {| StdoutPipe_err := None; Start_err := None;
                           scanned := ["Update Complete."]; Wait_err := None |}
                        "helmfile.yaml" "all" true (in_order 2) empty_world
    = Some (evs, ex, w')
    /\ (ex = Returned \/ ex = Fatal \/ ex = Crashed NilDereference).
Proof.
  eexists _, _, _. split; [vm_compute; reflexivity|].
  apply (proj2 (Part000_main_returns_iff
                  semver.NewVersion String.length example_search example_yaml
                  (fun _ => false) (fun _ => Ok "releases: ...")
                  (fun _ => Ok (um_Helmfile failing_manager))
                  {| StdoutPipe_err := None; Start_err := None;
                     scanned := ["Update Complete."]; Wait_err := None |}
                  "helmfile.yaml" "all" true (in_order 2) empty_world _ _ _ eq_refl)).
Defined.

Section MainMain.

Variable NewVersion : string -> result semver.Version.
Variable RuneCountInString : string -> nat.
Variable helm_search_repo : string -> result string.
Variable yaml_Unmarshal : string -> result (list HelmChartInfo.t).
Variable filepath_Join : string -> string -> string.
Variable ReadFile : string -> result string.
Variable yaml_Unmarshal_Helmfile : string -> result Helmfile.
Variable helm_repo_update : repo_update.

Local Abbreviation lookup := (GetReleaseComparer helm_search_repo yaml_Unmarshal).
Local Abbreviation NewHelmfile :=
  (MainProgram.NewHelmfile filepath_Join ReadFile yaml_Unmarshal_Helmfile).
Local Abbreviation main :=
  (MainProgram.main NewVersion RuneCountInString helm_search_repo yaml_Unmarshal
                    filepath_Join ReadFile yaml_Unmarshal_Helmfile helm_repo_update).

Lemma Main_main_exit (flagStatus : string) (flagUpdateRepos : bool)
      (sched : list nat) (w w' : world) (evs : list event) (ex : exit) :
  main flagStatus flagUpdateRepos sched w = Some (evs, ex, w') ->
  ex <> Fatal
  /\ (ex = Returned ->
      exists helmfile um',
        NewHelmfile "helmfile.yaml" = Ok helmfile
        /\ (flagUpdateRepos = true -> (UpdateRepositories helm_repo_update).2 = None)
        /\ (forall release, In release (Releases helmfile) ->
                            error_of (lookup release w).1 = None)
        /\ Main.CheckForUpdates helm_search_repo yaml_Unmarshal sched
                                (NewUpdateManager helmfile) w
           = Some (Ret (um', None), w')
        /\ forall o, In o (Comparisons um') ->
                     exists c b, o = Some c /\ Main.HasUpdate NewVersion c = Ret b).
Proof.
  unfold MainProgram.main.
  destruct (NewHelmfile "helmfile.yaml") as [helmfile|err0];
    [|intros [= _ <- _]; split; discriminate].
  destruct (if flagUpdateRepos then UpdateRepositories helm_repo_update else ([], None))
    as [out1 [err1|]] eqn:Hupd; [intros [= _ <- _]; split; discriminate|].
  assert (Hupd' : flagUpdateRepos = true -> (UpdateRepositories helm_repo_update).2 = None).
  { intros ->. now rewrite Hupd. }
  destruct (Main.CheckForUpdates _ _ sched (NewUpdateManager helmfile) w)
    as [[[[um' [err2|]]|p] w2]|] eqn:Hrun; try discriminate;
    try (intros [= _ <- _]; split; discriminate).
  pose proof (Main_report_Returned NewVersion RuneCountInString flagStatus
                (Comparisons um')) as Hexit.
  destruct (MainProgram.report NewVersion RuneCountInString flagStatus (Comparisons um'))
    as [out3 ex3] eqn:Hrep. cbn [snd] in Hexit.
  intros [= _ <- <-]. split.
  - intros ->. revert Hrep. unfold MainProgram.report.
    destruct (Main.HasUpdates NewVersion (Comparisons um')) as [[]|?]; try discriminate.
    destruct (getColumnPaddings (Comparisons um')) as [[n v]|?]; [|discriminate].
    pose proof (Main_rows_Returned NewVersion RuneCountInString flagStatus n v
                  (Comparisons um')) as Hrows.
    assert (Hnot : forall cs,
               (MainProgram.rows NewVersion RuneCountInString flagStatus n v cs).2
               <> Fatal).
    { clear. induction cs as [|[c|] cs IH]; cbn [MainProgram.rows]; try discriminate.
      destruct (Main.HasUpdate NewVersion c) as [b|p]; [|discriminate].
      destruct (flagStatus =? "all")%string;
        [|destruct (flagStatus =? "outdated")%string;
          [|destruct (flagStatus =? "latest")%string]];
        destruct (MainProgram.rows NewVersion RuneCountInString flagStatus n v cs);
        exact IH. }
    specialize (Hnot (Comparisons um')).
    destruct (MainProgram.rows NewVersion RuneCountInString flagStatus n v
                (Comparisons um')) as [out ex]. cbn [snd] in Hnot.
    intros [= _ ->]. now apply Hnot.
  - intros ->. exists helmfile, um'.
    pose proof (Main_CheckForUpdates_sound helm_search_repo yaml_Unmarshal
                  _ _ _ _ _ Hrun) as [_ Hok].
    cbn [NewUpdateManager um_Helmfile] in Hok.
    split; [reflexivity|]. split; [exact Hupd'|]. split; [|split].
    + intros release [i Hi]%list_elem_of_In%list_elem_of_lookup.
      now destruct (Hok i release Hi).
    + first [reflexivity|exact Hrun].
    + now apply Hexit.
Qed.

End MainMain.

(** X14. A run of main.go's main never ends in log.Fatalf (every failure is
    a panic), and when it returns the manifest was loaded, the update of the
    repositories (when asked for) succeeded, the lookup of every release
    succeeded and HasUpdate returned on every comparer of the set. *)
Theorem Main_main_returns_only_if
        (NewVersion : string -> result semver.Version)
        (RuneCountInString : string -> nat)
        (helm_search_repo : string -> result string)
        (yaml_Unmarshal : string -> result (list HelmChartInfo.t))
        (filepath_Join : string -> string -> string)
        (ReadFile : string -> result string)
        (yaml_Unmarshal_Helmfile : string -> result Helmfile)
        (helm_repo_update : repo_update)
        (flagStatus : string) (flagUpdateRepos : bool)
        (sched : list nat) (w w' : world) (evs : list event) (ex : exit) :
  MainProgram.main NewVersion RuneCountInString helm_search_repo yaml_Unmarshal
                   filepath_Join ReadFile yaml_Unmarshal_Helmfile helm_repo_update
                   flagStatus flagUpdateRepos sched w = Some (evs, ex, w') ->
  ex <> Fatal
  /\ (ex = Returned ->
      exists helmfile um',
        MainProgram.NewHelmfile filepath_Join ReadFile yaml_Unmarshal_Helmfile
                                "helmfile.yaml" = Ok helmfile
        /\ (flagUpdateRepos = true -> (UpdateRepositories helm_repo_update).2 = None)
        /\ (forall release,
               In release (Releases helmfile) ->
               error_of (GetReleaseComparer helm_search_repo yaml_Unmarshal release w).1
               = None)
        /\ Main.CheckForUpdates helm_search_repo yaml_Unmarshal sched
                                (NewUpdateManager helmfile) w
           = Some (Ret (um', None), w')
        /\ forall o, In o (Comparisons um') ->
                     exists c b, o = Some c /\ Main.HasUpdate NewVersion c = Ret b).
Proof. apply Main_main_exit. Qed.

Lemma Main_main_returns_only_if_witness :
  exists evs ex w',
    MainProgram.main semver.NewVersion String.length example_search example_yaml
                     (fun _ path => path) (fun _ => Ok "releases: ...")
                     (fun _ => Ok (um_Helmfile example_manager))
                     {| StdoutPipe_err := None; Start_err := None;
                        scanned := []; Wait_err := None |}
                     "outdated" false (in_order 2) empty_world
    = Some (evs, ex, w')
    /\ ex <> Fatal.
Proof.
  eexists _, _, _. split; [vm_compute; reflexivity|].
  apply (proj1 (Main_main_returns_only_if
                  semver.NewVersion String.length example_search example_yaml
                  (fun _ path => path) (fun _ => Ok "releases: ...")
                  (fun _ => Ok (um_Helmfile example_manager))
                  {| StdoutPipe_err := None; Start_err := None;
                     scanned := []; Wait_err := None |}
                  "outdated" false (in_order 2) empty_world _ _ _ eq_refl)).
Defined.

(** ** More on HasUpdates and on the lost error *)

(** X15. With the goroutines of part_000's CheckForUpdates run one after
    the other, in the order of the manifest, the error returned is nil
    exactly when the lookup of the last release succeeds: each lookup assigns
    its own outcome to the shared [err], so the failures of the releases
    before the last one are lost. *)
Theorem CheckForUpdates_in_order_keeps_the_last_error_only
        (helm_search_repo : string -> result string)
        (yaml_Unmarshal : string -> result (list HelmChartInfo.t))
        (um um' : UpdateManager) (w w' : world) (e : option error)
        (before : list Release) (release : Release) :
  Releases (um_Helmfile um) = before ++ [release] ->
  Part000.CheckForUpdates helm_search_repo yaml_Unmarshal
    (in_order (length (before ++ [release]))) um w = Some (um', e, w') ->
  (e = None
   <-> error_of (GetReleaseComparer helm_search_repo yaml_Unmarshal release w).1 = None).
Proof. apply CheckForUpdates_in_order_reports_last_only. Qed.

Lemma CheckForUpdates_in_order_keeps_the_last_error_only_witness :
  exists um' e w',
    Part000.CheckForUpdates example_search example_yaml (in_order 2)
                            failing_manager empty_world = Some (um', e, w')
    /\ (e = None
        <-> error_of (GetReleaseComparer example_search example_yaml
                        (declared "b" "./local/b" "2.0.0") empty_world).1 = None).
Proof.
  eexists _, _, _. split; [vm_compute; reflexivity|].
  apply (CheckForUpdates_in_order_keeps_the_last_error_only
           example_search example_yaml failing_manager _ empty_world _ _
           [declared "c" "repoC/c" "1.0.0"] (declared "b" "./local/b" "2.0.0")
           eq_refl eq_refl).
Defined.

(** X16. In part_000 a comparer on which HasUpdate answers false (a release
    that is up to date, or one whose versions do not parse) can be taken out
    of the set, wherever it stands, without changing what HasUpdates
    answers. *)
Theorem HasUpdates_ignores_comparers_without_update
        (NewVersion : string -> result semver.Version)
        (before after : list (option ReleaseComparer)) (rc : ReleaseComparer) :
  (Part000.HasUpdate NewVersion rc).1 = false ->
  (Part000.HasUpdates NewVersion (before ++ Some rc :: after)).1
  = (Part000.HasUpdates NewVersion (before ++ after)).1.
Proof. apply Part000_HasUpdates_drop_false. Qed.

Lemma HasUpdates_ignores_comparers_without_update_witness :
  (Part000.HasUpdates semver.NewVersion
     ([Some (versions "db" "2.0.0" "2.0.0")]
      ++ Some (versions "app" "not-a-version" "1.0.0")
      :: [Some (versions "web" "1.0.0" "1.1.0")])).1
  = (Part000.HasUpdates semver.NewVersion
       ([Some (versions "db" "2.0.0" "2.0.0")]
        ++ [Some (versions "web" "1.0.0" "1.1.0")])).1.
Proof.
  apply (HasUpdates_ignores_comparers_without_update semver.NewVersion
           [Some (versions "db" "2.0.0" "2.0.0")]
           [Some (versions "web" "1.0.0" "1.1.0")]
           (versions "app" "not-a-version" "1.0.0")).
  reflexivity.
Defined.

(** X17. The two drafts agree wherever main.go does not panic on a version:
    when main.go's HasUpdates returns a boolean, part_000's returns the same
    one on the same set, and when main.go's stops on a nil comparer so does
    part_000's. *)
Theorem HasUpdates_drafts_agree
        (NewVersion : string -> result semver.Version)
        (cs : list (option ReleaseComparer)) :
  match Main.HasUpdates NewVersion cs with
  | Ret b => (Part000.HasUpdates NewVersion cs).1 = Ret b
  | Panic NilDereference => (Part000.HasUpdates NewVersion cs).1 = Panic NilDereference
  | Panic (PanicError _) => True
  end.
Proof. apply Main_HasUpdates_agrees. Qed.
